(** * porm: a small sqlite3 <-> python ORM layer, embedded in Rocq

    The development follows [porm.py]: the three functions [query], [save]
    and [orm] are written against an abstract connection (the module
    "merely requires objects which look and behave like the
    sqlite3.Connection and sqlite3.Cursor objects"), python values are a
    tagged variant, exceptions are an explicit outcome, and the mutual
    recursion of [query] and [orm] is cut by a fuel counter on [query].
    The statements sent to a connection are recorded by [Traced]; [MiniSQL]
    is an in-memory connection for the statements porm sends. *)

From Stdlib Require Import String Ascii List ZArith Lia Bool Arith PeanoNat.
From Stdlib Require Import DecimalString DecimalZ Permutation.
Import ListNotations.
Local Open Scope list_scope.
Local Open Scope string_scope.

(** ** Python values *)

(** The values that travel through porm: integers, text, [None], and
    instances of the class [Pormo] (the floating-point and binary values of
    sqlite3 are left out).  An instance is its attribute dictionary, in
    insertion order, with one entry per attribute name. *)
#[warnings="-register-all"] Inductive value : Type :=
| VInt (n : Z)
| VStr (s : string)
| VNone
| VObj (o : list (string * value)).

(** [class Pormo: pass] *)
Definition Pormo : Type := list (string * value).

(** [Pormo()] *)
Definition new_Pormo : Pormo := [].

(** [getattr(obj, name)]; [None] stands for AttributeError. *)
Fixpoint getattr (obj : Pormo) (name : string) : option value :=
  match obj with
  | [] => None
  | (k, v) :: rest => if (k =? name)%string then Some v else getattr rest name
  end.

(** [setattr(obj, name, val)]: an existing attribute keeps its place in the
    dictionary, a new one goes last. *)
Fixpoint setattr (obj : Pormo) (name : string) (val : value) : Pormo :=
  match obj with
  | [] => [(name, val)]
  | (k, v) :: rest =>
      if (k =? name)%string then (k, val) :: rest
      else (k, v) :: setattr rest name val
  end.

(** [sorted]: insertion sort on names, in the order of [str.__lt__]. *)
Fixpoint insert_name (x : string) (l : list string) : list string :=
  match l with
  | [] => [x]
  | y :: l' => if String.leb x y then x :: l else y :: insert_name x l'
  end.

Fixpoint sorted (l : list string) : list string :=
  match l with
  | [] => []
  | x :: l' => insert_name x (sorted l')
  end.

(** [dir(instance)]: the attribute names, sorted.  The names inherited from
    the class all start with two underscores; [save] filters them out, and
    they are left out here. *)
Definition dir (obj : Pormo) : list string := sorted (map fst obj).

(** ** String operations of python *)

(** [s[-n:]] *)
Definition slice_last (n : nat) (s : string) : string :=
  substring (String.length s - n) n s.

(** [s[:-n]] *)
Definition slice_drop_last (n : nat) (s : string) : string :=
  substring 0 (String.length s - n) s.

(** [s[0:n]] *)
Definition slice_first (n : nat) (s : string) : string := substring 0 n s.

(** Decimal text of an integer, as ['%i'] and ['%s'] print it. *)
Definition decimal (n : Z) : string := NilZero.string_of_int (Z.to_int n).

(** ** Exceptions and outcomes *)

Inductive exn : Type :=
| TypeError
| AttributeError
| IndexError
| DatabaseError (msg : string).

(** A call returns, raises, or does not return: the connection never
    answers, or the recursion of [query] and [orm] does not end within the
    depth granted to it. *)
Inductive outcome (A : Type) : Type :=
| Ok (a : A)
| Raise (e : exn)
| Diverges.
Arguments Ok {A} a.
Arguments Raise {A} e.
Arguments Diverges {A}.

(** ['%i' % v]: a number is required. *)
Definition fmt_i (v : value) : outcome string :=
  match v with
  | VInt n => Ok (decimal n)
  | _ => Raise TypeError
  end.

(** ['%s' % v], that is [str(v)].  The default text of an object carries
    its address, which is left out. *)
Definition fmt_s (v : value) : string :=
  match v with
  | VInt n => decimal n
  | VStr s => s
  | VNone => "None"
  | VObj _ => "<porm.Pormo object>"
  end.

(** [sep.join(items)]: every item has to be a [str]. *)
Fixpoint str_join (sep : string) (items : list value) : outcome string :=
  match items with
  | [] => Ok ""
  | VStr s :: rest =>
      match rest with
      | [] => Ok s
      | _ =>
          match str_join sep rest with
          | Ok t => Ok (s ++ sep ++ t)
          | Raise e => Raise e
          | Diverges => Diverges
          end
      end
  | _ :: _ => Raise TypeError
  end.

(** [v == 0] *)
Definition eq_zero (v : value) : bool :=
  match v with
  | VInt n => (n =? 0)%Z
  | _ => false
  end.

(** ** The connection *)

(** [cursor.description] is kept as the list of column names [d[0]];
    [fetchall] is the list of rows the cursor holds. *)
Record Cursor : Type := mkCursor {
  description : list string;
  fetchall : list (list value)
}.

(** What porm asks of [db]: [db.execute(stmt)] and [db.commit()].  Both may
    change the database and both may raise. *)
Class Connection (DB : Type) : Type := {
  execute : string -> DB -> outcome Cursor * DB;
  commit : DB -> outcome unit * DB
}.

(** ** State and exception monad *)

Definition M (DB A : Type) : Type := DB -> outcome A * DB.

Definition ret {DB A : Type} (a : A) : M DB A := fun d => (Ok a, d).

Definition bind {DB A B : Type} (c : M DB A) (k : A -> M DB B) : M DB B :=
  fun d =>
    match c d with
    | (Ok a, d') => k a d'
    | (Raise e, d') => (Raise e, d')
    | (Diverges, d') => (Diverges, d')
    end.

Definition raise {DB A : Type} (e : exn) : M DB A := fun d => (Raise e, d).

Definition diverge {DB A : Type} : M DB A := fun d => (Diverges, d).

(** An outcome computed without touching the connection. *)
Definition lift {DB A : Type} (r : outcome A) : M DB A := fun d => (r, d).

Declare Scope porm_scope.
Delimit Scope porm_scope with porm.
Notation "x <- c ;; k" := (bind c (fun x => k))
  (at level 61, c at next level, right associativity) : porm_scope.
Notation "c ;;; k" := (bind c (fun _ => k))
  (at level 61, right associativity) : porm_scope.
Local Open Scope porm_scope.

(** [l[i]] *)
Definition index {DB A : Type} (l : list A) (i : nat) : M DB A :=
  match nth_error l i with
  | Some x => ret x
  | None => raise IndexError
  end.

(** [for x in l: s = body(x, s)] *)
Fixpoint for_each {DB A S : Type} (l : list A) (body : A -> S -> M DB S) (s : S)
  : M DB S :=
  match l with
  | [] => ret s
  | x :: l' => s' <- body x s ;; for_each l' body s'
  end.

(** [l[i] = x] for an index in range. *)
Fixpoint list_set {A : Type} (i : nat) (x : A) (l : list A) : list A :=
  match l, i with
  | [], _ => []
  | _ :: l', O => x :: l'
  | y :: l', S i' => y :: list_set i' x l'
  end.

(** ** porm *)

Section Porm.

Context {DB : Type} {conn : Connection DB}.

(** The test of line 152:
    [fkeylookup and len(name) > 3 and name[-3:] == '_id']. *)
Definition is_fkey (fkeylookup : bool) (name : string) : bool :=
  fkeylookup && (3 <? String.length name)%nat && (slice_last 3 name =? "_id")%string.

(** The body of the inner loop of [orm] (lines 148 to 161), with the
    recursive call to [query] as a parameter. *)
Definition orm_col (query_rec : string -> string -> M DB (list Pormo))
    (fkeylookup : bool) (rownames : list string) (row : list value)
    (i : nat) (obj : Pormo) : M DB Pormo :=
  name <- index rownames i ;;
  val <- index row i ;;
  if is_fkey fkeylookup name then
    w <- lift (fmt_i val) ;;
    val <- query_rec (slice_drop_last 3 name) ("id = " ++ w) ;;
    match val with
    | o :: _ => ret (setattr obj name (VObj o))
    | [] => ret (setattr obj name VNone)
    end
  else ret (setattr obj name val).

(** The body of the outer loop of [orm] (lines 145 to 163). *)
Definition orm_row (query_rec : string -> string -> M DB (list Pormo))
    (fkeylookup : bool) (rownames : list string) (row : list value)
    (objs : list Pormo) : M DB (list Pormo) :=
  obj <- for_each (seq 0 (List.length rownames))
           (orm_col query_rec fkeylookup rownames row) new_Pormo ;;
  ret (objs ++ [obj])%list.

(** [orm], with the recursive call to [query] as a parameter. *)
Definition orm_with (query_rec : string -> string -> M DB (list Pormo))
    (table : string) (cursor : Cursor) (fkeylookup : bool)
  : M DB (list Pormo) :=
  let objs := [] in
  let rows := fetchall cursor in
  let rownames := description cursor in
  for_each rows (orm_row query_rec fkeylookup rownames) objs.

(** [query(db, table, where, fkeylookup)].  The nested call that [orm]
    makes for a foreign key leaves [fkeylookup] at its default [True]. *)
Fixpoint query (fuel : nat) (table where_ : string) (fkeylookup : bool)
  : M DB (list Pormo) :=
  match fuel with
  | O => diverge
  | S fuel' =>
      let where_ :=
        if negb (String.length where_ =? 0)%nat then "where " ++ where_ else where_ in
      let query_ := "select * from " ++ table ++ " " ++ where_ in
      cursor <- execute query_ ;;
      orm_with (fun t w => query fuel' t w true) table cursor fkeylookup
  end.

(** [orm(db, table, cursor, fkeylookup)]; [fuel] is the depth left for the
    nested queries. *)
Definition orm (fuel : nat) (table : string) (cursor : Cursor) (fkeylookup : bool)
  : M DB (list Pormo) :=
  orm_with (fun t w => query fuel t w true) table cursor fkeylookup.

(** The loop of lines 89 to 91:
    [for i in range(len(values)):
       if isinstance(values[i], Pormo): values[i] = values[i].id]. *)
Definition flatten_step (i : nat) (values : list value) : M DB (list value) :=
  v <- index values i ;;
  match v with
  | VObj o =>
      match getattr o "id" with
      | Some id_ => ret (list_set i id_ values)
      | None => raise AttributeError
      end
  | _ => ret values
  end.

Definition flatten (values : list value) : M DB (list value) :=
  for_each (seq 0 (List.length values)) flatten_step values.

(** [instance.name] *)
Definition attribute (instance : Pormo) (name : string) : M DB value :=
  match getattr instance name with
  | Some v => ret v
  | None => raise AttributeError
  end.

(** [[getattr(instance, f) for f in fields]] *)
Fixpoint attributes (instance : Pormo) (fields : list string) : M DB (list value) :=
  match fields with
  | [] => ret []
  | f :: rest =>
      v <- attribute instance f ;;
      vs <- attributes instance rest ;;
      ret (v :: vs)
  end.

(** ['%s=\'%s\'' % e] *)
Definition assignment (e : string * value) : string :=
  fst e ++ "='" ++ fmt_s (snd e) ++ "'".

(** [save(db, table, instance)] *)
Definition save (table : string) (instance : Pormo) : M DB unit :=
  id0 <- attribute instance "id" ;;
  exists_ <-
    (if eq_zero id0 then ret false
     else
       id1 <- attribute instance "id" ;;
       w <- lift (fmt_i id1) ;;
       let query_ := "select * from " ++ table ++ " where id = " ++ w in
       cursor <- execute query_ ;;
       let exists_ := fetchall cursor in
       ret (negb (List.length exists_ =? 0)%nat)) ;;
  let fields :=
    filter (fun f => negb (slice_first 2 f =? "__")%string) (dir instance) in
  values <- attributes instance fields ;;
  values <- flatten values ;;
  (if exists_ : bool then
     let exprs := String.concat "," (map assignment (combine fields values)) in
     id2 <- attribute instance "id" ;;
     w <- lift (fmt_i id2) ;;
     let stmt := "update " ++ table ++ " set " ++ exprs ++ " where id=" ++ w in
     execute stmt ;;; ret tt
   else
     let fields := String.concat "," fields in
     values <- lift (str_join "," values) ;;
     let stmt :=
       "insert into " ++ table ++ " (" ++ fields ++ ") values (" ++ values ++ ")" in
     execute stmt ;;; ret tt) ;;;
  commit.

End Porm.

(** The foreign key convention, in the words of the specification: lookup
    is enabled, and the name ends in [_id] and has more than 3 characters. *)
Definition fkey_convention (fkeylookup : bool) (name : string) : Prop :=
  fkeylookup = true /\ 3 < String.length name /\ exists ref, name = ref ++ "_id".

(** The statement that [query] sends for a table and a where clause. *)
Definition select_stmt (table where_ : string) : string :=
  "select * from " ++ table ++ " " ++ where_.

(** ** Returning

    [settles I c]: from a database in [I] the computation [c] returns or
    raises, and a database it returns with is in [I] again. *)
Definition settles {DB A : Type} (I : DB -> Prop) (c : M DB A) : Prop :=
  forall d, I d ->
    match c d with
    | (Ok _, d') => I d'
    | (Raise _, _) => True
    | (Diverges, _) => False
    end.

(** [keeps I c]: when [c] returns from a database in [I], the database it
    returns with is in [I] again. *)
Definition keeps {DB A : Type} (I : DB -> Prop) (c : M DB A) : Prop :=
  forall d, I d -> forall a d', c d = (Ok a, d') -> I d'.

(** [returns I c]: from a database in [I] the computation [c] returns. *)
Definition returns {DB A : Type} (I : DB -> Prop) (c : M DB A) : Prop :=
  forall d, I d -> exists a d', c d = (Ok a, d').

(** [agrees c1 c2]: wherever [c1] returns or raises, [c2] does the same. *)
Definition agrees {DB A : Type} (c1 c2 : M DB A) : Prop :=
  forall d, fst (c1 d) <> Diverges -> c2 d = c1 d.

(** ** Recording what is sent to the connection *)

Inductive event : Type :=
| Executed (stmt : string)
| Committed.

(** A connection together with the list of the calls made on it so far. *)
Record Traced (DB : Type) : Type := mkTraced {
  inner : DB;
  trace : list event
}.
Arguments mkTraced {DB} inner trace.
Arguments inner {DB} t.
Arguments trace {DB} t.

#[global] Instance traced_connection {DB : Type} {conn : Connection DB}
  : Connection (Traced DB) := {
  execute stmt t :=
    let (r, d) := execute stmt (inner t) in
    (r, mkTraced d (trace t ++ [Executed stmt])%list);
  commit t :=
    let (r, d) := commit (inner t) in
    (r, mkTraced d (trace t ++ [Committed])%list)
}.

(** ** The flattened view of a Record, in the words of the specification *)

(** A value that is itself a Record is replaced with that Record's [id]. *)
Definition flat (v : value) : option value :=
  match v with
  | VObj o => getattr o "id"
  | _ => Some v
  end.

Fixpoint flat_all (vs : list value) : option (list value) :=
  match vs with
  | [] => Some []
  | v :: rest =>
      match flat v, flat_all rest with
      | Some v', Some rest' => Some (v' :: rest')
      | _, _ => None
      end
  end.

(** The public attributes of a Record, in attribute iteration order. *)
Definition public (f : string) : bool := negb (slice_first 2 f =? "__")%string.

Definition public_fields (instance : Pormo) : list string :=
  filter public (dir instance).

(** The value an attribute holds, [None] when it is absent. *)
Definition field_value (instance : Pormo) (f : string) : value :=
  match getattr instance f with
  | Some v => v
  | None => VNone
  end.

Definition field_values (instance : Pormo) : list value :=
  map (field_value instance) (public_fields instance).

(** The flattened view, field by field. *)
Definition flattened (instance : Pormo) (f : string) (v' : value) : Prop :=
  exists v, getattr instance f = Some v /\
    match v with
    | VObj o => getattr o "id" = Some v'
    | _ => v' = v
    end.

(** ** Parts of [orm] and [save], named

    The value a column resolves to, the statements of lines 81 and 99 and
    the tail of [save] after the existence test, as the lemmas refer to
    them. *)

Section Parts.

Context {DB : Type} {conn : Connection DB}.

(** The value that lines 152 to 161 give to the attribute [name]. *)
Definition resolve (query_rec : string -> string -> M DB (list Pormo))
    (fkeylookup : bool) (name : string) (val : value) : M DB value :=
  if is_fkey fkeylookup name then
    w <- lift (fmt_i val) ;;
    r <- query_rec (slice_drop_last 3 name) ("id = " ++ w) ;;
    ret (match r with o :: _ => VObj o | [] => VNone end)
  else ret val.

(** [answered I q fkeylookup rownames row]: the row has a value for every
    column, and in every column that is looked up it holds an integer whose
    look-up with [q] returns from every database in [I]. *)
Definition answered (I : DB -> Prop) (q : string -> string -> M DB (list Pormo))
    (fkeylookup : bool) (rownames : list string) (row : list value) : Prop :=
  List.length rownames <= List.length row /\
  forall c name val,
    nth_error rownames c = Some name ->
    nth_error row c = Some val ->
    is_fkey fkeylookup name = true ->
    exists k, val = VInt k /\
              returns I (q (slice_drop_last 3 name) ("id = " ++ decimal k)).

(** The existence probe of line 81. *)
Definition probe (table : string) (n : Z) : string :=
  "select * from " ++ table ++ " where id = " ++ decimal n.

(** The statement of line 99, over the flattened values. *)
Definition update_stmt (table : string) (fields : list string) (vs : list value)
    (n : Z) : string :=
  "update " ++ table ++ " set "
    ++ String.concat "," (map assignment (combine fields vs))
    ++ " where id=" ++ decimal n.

(** Lines 85 to 111 of [save], once [exists] is known. *)
Definition save_rest (table : string) (instance : Pormo) (exists_ : bool)
  : M DB unit :=
  let fields := filter (fun f => negb (slice_first 2 f =? "__")%string) (dir instance) in
  values <- attributes instance fields ;;
  values <- flatten values ;;
  (if exists_ then
     let exprs := String.concat "," (map assignment (combine fields values)) in
     id2 <- attribute instance "id" ;;
     w <- lift (fmt_i id2) ;;
     let stmt := "update " ++ table ++ " set " ++ exprs ++ " where id=" ++ w in
     execute stmt ;;; ret tt
   else
     let fields := String.concat "," fields in
     values <- lift (str_join "," values) ;;
     let stmt :=
       "insert into " ++ table ++ " (" ++ fields ++ ") values (" ++ values ++ ")" in
     execute stmt ;;; ret tt) ;;;
  commit.

End Parts.

(** ** A connection to compute with

    porm is written for sqlite3.  [MiniSQL] is an in-memory database that
    understands the four statement forms porm sends,
      [select * from T ], [select * from T where id = N],
      [update T set f='v',... where id=N] and
      [insert into T (f,...) values (v,...)],
    with sqlite's column affinity for the text literals of an update, and
    that rejects every other statement.  An update is refused, as sqlite
    refuses it, when a name in it is a keyword or is not made of the
    characters of a name, and when a literal holds the character of
    code 0.  Three things MiniSQL refuses although sqlite takes them: in an
    update, a name that is not a plain identifier (letters, digits and
    underscores of ASCII, no digit first) or that is one of the keywords
    sqlite lets stand as a name; a name of a table or of a column written
    in another case of letters than the database has it; and a text
    literal for an INTEGER column that sqlite would carry through its
    floating-point conversion (a real literal, an integer beyond 64 bits),
    since the values have no floating-point numbers. *)

Module MiniSQL.

Inductive affinity : Type := INTEGER | TEXT.

Record table : Type := mkTable {
  tname : string;
  columns : list (string * affinity);
  rows : list (list value)
}.

Definition db : Type := list table.

(** *** Reading statement text *)

(** [strip p s] is what follows [p] in [s], when [s] starts with [p]. *)
Fixpoint strip (p s : string) : option string :=
  match p, s with
  | EmptyString, _ => Some s
  | String a p', String b s' => if Ascii.eqb a b then strip p' s' else None
  | String _ _, EmptyString => None
  end.

(** The text before the first [c], and the text after it when there is one. *)
Fixpoint split_at (c : ascii) (s : string) : string * option string :=
  match s with
  | EmptyString => (EmptyString, None)
  | String a s' =>
      if Ascii.eqb a c then (EmptyString, Some s')
      else let (x, y) := split_at c s' in (String a x, y)
  end.

(** The pieces of [s] between the occurrences of [c]. *)
Fixpoint pieces (c : ascii) (s : string) : list string :=
  match s with
  | EmptyString => [EmptyString]
  | String a s' =>
      if Ascii.eqb a c then EmptyString :: pieces c s'
      else
        match pieces c s' with
        | [] => [String a EmptyString]
        | x :: rest => String a x :: rest
        end
  end.

(** [lacks c s]: the character [c] does not occur in [s]. *)
Fixpoint lacks (c : ascii) (s : string) : bool :=
  match s with
  | EmptyString => true
  | String a s' => negb (Ascii.eqb a c) && lacks c s'
  end.


(** *** Names *)

Definition is_space (c : ascii) : bool :=
  let n := nat_of_ascii c in ((9 <=? n) && (n <=? 13) || (n =? 32))%nat.

Definition is_digit (c : ascii) : bool :=
  let n := nat_of_ascii c in ((48 <=? n) && (n <=? 57))%nat.

Definition is_letter (c : ascii) : bool :=
  let n := nat_of_ascii c in
  ((65 <=? n) && (n <=? 90) || (97 <=? n) && (n <=? 122))%nat.

(** A character of a plain identifier. *)
Definition is_idchar (c : ascii) : bool :=
  is_letter c || is_digit c || Ascii.eqb c "_".

Definition upper (c : ascii) : ascii :=
  let n := nat_of_ascii c in
  if ((97 <=? n) && (n <=? 122))%nat then ascii_of_nat (n - 32) else c.

Fixpoint uppercase (s : string) : string :=
  match s with
  | EmptyString => EmptyString
  | String c s' => String (upper c) (uppercase s')
  end.

(** The keywords of sqlite. *)
Definition keywords : list string :=
  ["ABORT"; "ACTION"; "ADD"; "AFTER"; "ALL"; "ALTER"; "ALWAYS"; "ANALYZE"; "AND";
   "AS"; "ASC"; "ATTACH"; "AUTOINCREMENT"; "BEFORE"; "BEGIN"; "BETWEEN"; "BY";
   "CASCADE"; "CASE"; "CAST"; "CHECK"; "COLLATE"; "COLUMN"; "COMMIT"; "CONFLICT";
   "CONSTRAINT"; "CREATE"; "CROSS"; "CURRENT"; "CURRENT_DATE"; "CURRENT_TIME";
   "CURRENT_TIMESTAMP"; "DATABASE"; "DEFAULT"; "DEFERRABLE"; "DEFERRED"; "DELETE";
   "DESC"; "DETACH"; "DISTINCT"; "DO"; "DROP"; "EACH"; "ELSE"; "END"; "ESCAPE";
   "EXCEPT"; "EXCLUDE"; "EXCLUSIVE"; "EXISTS"; "EXPLAIN"; "FAIL"; "FILTER"; "FIRST";
   "FOLLOWING"; "FOR"; "FOREIGN"; "FROM"; "FULL"; "GENERATED"; "GLOB"; "GROUP";
   "GROUPS"; "HAVING"; "IF"; "IGNORE"; "IMMEDIATE"; "IN"; "INDEX"; "INDEXED";
   "INITIALLY"; "INNER"; "INSERT"; "INSTEAD"; "INTERSECT"; "INTO"; "IS"; "ISNULL";
   "JOIN"; "KEY"; "LAST"; "LEFT"; "LIKE"; "LIMIT"; "MATCH"; "MATERIALIZED";
   "NATURAL"; "NO"; "NOT"; "NOTHING"; "NOTNULL"; "NULL"; "NULLS"; "OF"; "OFFSET";
   "ON"; "OR"; "ORDER"; "OTHERS"; "OUTER"; "OVER"; "PARTITION"; "PLAN"; "PRAGMA";
   "PRECEDING"; "PRIMARY"; "QUERY"; "RAISE"; "RANGE"; "RECURSIVE"; "REFERENCES";
   "REGEXP"; "REINDEX"; "RELEASE"; "RENAME"; "REPLACE"; "RESTRICT"; "RETURNING";
   "RIGHT"; "ROLLBACK"; "ROW"; "ROWS"; "SAVEPOINT"; "SELECT"; "SET"; "TABLE";
   "TEMP"; "TEMPORARY"; "THEN"; "TIES"; "TO"; "TRANSACTION"; "TRIGGER";
   "UNBOUNDED"; "UNION"; "UNIQUE"; "UPDATE"; "USING"; "VACUUM"; "VALUES"; "VIEW";
   "VIRTUAL"; "WHEN"; "WHERE"; "WINDOW"; "WITH"; "WITHIN"; "WITHOUT"].

Definition is_keyword (s : string) : bool :=
  existsb (String.eqb (uppercase s)) keywords.

Fixpoint idchars (s : string) : bool :=
  match s with
  | EmptyString => true
  | String c s' => is_idchar c && idchars s'
  end.

(** A name that an update can carry bare: a plain identifier that is not a
    keyword. *)
Definition identifier (s : string) : bool :=
  match s with
  | EmptyString => false
  | String c _ => negb (is_digit c) && idchars s && negb (is_keyword s)
  end.

(** *** Numeric text *)

Fixpoint skip_spaces (s : string) : string :=
  match s with
  | EmptyString => EmptyString
  | String c s' => if is_space c then skip_spaces s' else s
  end.

Fixpoint all_spaces (s : string) : bool :=
  match s with
  | EmptyString => true
  | String c s' => is_space c && all_spaces s'
  end.

(** The digits that [s] starts with, and what follows them. *)
Fixpoint take_digits (s : string) : string * string :=
  match s with
  | EmptyString => (EmptyString, EmptyString)
  | String c s' =>
      if is_digit c then let (ds, rest) := take_digits s' in (String c ds, rest)
      else (EmptyString, s)
  end.

(** An optional sign: whether it is [-], and what follows it. *)
Definition take_sign (s : string) : bool * string :=
  match s with
  | String "-" s' => (true, s')
  | String "+" s' => (false, s')
  | _ => (false, s)
  end.

(** An optional fraction: its digits when there is a point, and what
    follows. *)
Definition take_fraction (s : string) : option string * string :=
  match s with
  | String "." s' => let (ds, rest) := take_digits s' in (Some ds, rest)
  | _ => (None, s)
  end.

(** An optional exponent: [None] when there is none, [Some None] when an
    [e] is not followed by digits, and otherwise what follows it. *)
Definition take_exponent (s : string) : option (option string) :=
  match s with
  | String c s' =>
      if Ascii.eqb c "e" || Ascii.eqb c "E" then
        let (_, s1) := take_sign s' in
        match take_digits s1 with
        | (EmptyString, _) => Some None
        | (_, rest) => Some (Some rest)
        end
      else None
  | EmptyString => None
  end.

(** The integer that a sign and a run of digits denote. *)
Definition signed (negative : bool) (digits : string) : Z :=
  match NilEmpty.uint_of_string digits with
  | Some u => Z.of_int (if negative then Decimal.Neg u else Decimal.Pos u)
  | None => 0
  end.

Inductive literal_kind : Type :=
| NotNumeric
| IntegerLiteral (n : Z)
| RealLiteral.

(** How sqlite reads a text for a numeric column: blanks, a sign, digits,
    a fraction, an exponent, blanks; at least one digit before the
    exponent; anything else is not a number. *)
Definition numeric (text : string) : literal_kind :=
  let (negative, s1) := take_sign (skip_spaces text) in
  let (whole, s2) := take_digits s1 in
  let (fraction, s3) := take_fraction s2 in
  let digits :=
    String.length whole
    + match fraction with Some f => String.length f | None => 0 end in
  match digits, take_exponent s3 with
  | O, _ => NotNumeric
  | _, Some None => NotNumeric
  | _, Some (Some s4) => if all_spaces s4 then RealLiteral else NotNumeric
  | _, None =>
      if all_spaces s3 then
        match fraction with
        | Some _ => RealLiteral
        | None => IntegerLiteral (signed negative whole)
        end
      else NotNumeric
  end.

(** A 64-bit signed integer. *)
Definition int64 (n : Z) : bool := ((- 2 ^ 63 <=? n) && (n <? 2 ^ 63))%Z.

(** An integer literal. *)
Definition parse_int (s : string) : option Z :=
  option_map Z.of_int (NilZero.int_of_string s).

(** The [set] clause is read one character at a time. *)
Inductive reading : Type :=
| InName (name : string)
| ExpectQuote (name : string)
| InValue (name text : string)
| AfterValue.

Definition snoc (s : string) (c : ascii) : string := s ++ String c EmptyString.

(** Reads [f='v',f='v',...] up to the blank that follows the last value;
    gives the assignments and the text after that blank.  A literal ends at
    the first quote; the character of code 0, which ends the text of a
    statement, is refused inside one. *)
Fixpoint read_sets (s : string) (st : reading) (done : list (string * string))
  : option (list (string * string) * string) :=
  match s with
  | EmptyString => None
  | String c s' =>
      match st with
      | InName name =>
          if Ascii.eqb c "=" then read_sets s' (ExpectQuote name) done
          else read_sets s' (InName (snoc name c)) done
      | ExpectQuote name =>
          if Ascii.eqb c "'" then read_sets s' (InValue name EmptyString) done
          else None
      | InValue name text =>
          if Ascii.eqb c "'" then read_sets s' AfterValue (done ++ [(name, text)])%list
          else if Ascii.eqb c "000" then None
          else read_sets s' (InValue name (snoc text c)) done
      | AfterValue =>
          if Ascii.eqb c "," then read_sets s' (InName EmptyString) done
          else if Ascii.eqb c " " then Some (done, s')
          else None
      end
  end.

(** *** Tables *)

Fixpoint find_table (d : db) (name : string) : option table :=
  match d with
  | [] => None
  | t :: rest => if (tname t =? name)%string then Some t else find_table rest name
  end.

Fixpoint replace_table (d : db) (name : string) (t' : table) : db :=
  match d with
  | [] => []
  | t :: rest =>
      if (tname t =? name)%string then t' :: rest
      else t :: replace_table rest name t'
  end.

(** Position of a column in a table. *)
Fixpoint column_index (cols : list (string * affinity)) (name : string) : option nat :=
  match cols with
  | [] => None
  | (c, _) :: rest =>
      if (c =? name)%string then Some 0
      else option_map S (column_index rest name)
  end.

(** [id = n] on a row whose [id] is at position [i]. *)
Definition id_is (i : nat) (n : Z) (row : list value) : bool :=
  match nth_error row i with
  | Some (VInt m) => (m =? n)%Z
  | _ => false
  end.

(** What a column stores for a text literal.  A column of TEXT affinity
    keeps the text.  A column of INTEGER affinity turns the text of an
    integer of 64 bits into that integer and keeps a text that is not a
    number; the texts that sqlite converts through a floating-point number
    have no value here ([None]). *)
Definition store (a : affinity) (text : string) : option value :=
  match a with
  | INTEGER =>
      match numeric text with
      | NotNumeric => Some (VStr text)
      | IntegerLiteral n => if int64 n then Some (VInt n) else None
      | RealLiteral => None
      end
  | TEXT => Some (VStr text)
  end.

Definition error {A : Type} (msg : string) : outcome A := Raise (DatabaseError msg).

(** One assignment on one row. *)
Definition assign (cols : list (string * affinity)) (row : list value)
    (a : string * string) : outcome (list value) :=
  match column_index cols (fst a) with
  | Some i =>
      match nth_error cols i with
      | Some (_, aff) =>
          match store aff (snd a) with
          | Some v => Ok (list_set i v row)
          | None => error "real values are not modelled"
          end
      | None => error "no such column"
      end
  | None => error "no such column"
  end.

Fixpoint assign_all (cols : list (string * affinity)) (row : list value)
    (sets : list (string * string)) : outcome (list value) :=
  match sets with
  | [] => Ok row
  | a :: rest =>
      match assign cols row a with
      | Ok row' => assign_all cols row' rest
      | Raise e => Raise e
      | Diverges => Diverges
      end
  end.

Fixpoint update_rows (cols : list (string * affinity)) (i : nat) (n : Z)
    (sets : list (string * string)) (rs : list (list value))
  : outcome (list (list value)) :=
  match rs with
  | [] => Ok []
  | r :: rest =>
      match (if id_is i n r then assign_all cols r sets else Ok r) with
      | Ok r' =>
          match update_rows cols i n sets rest with
          | Ok rest' => Ok (r' :: rest')
          | Raise e => Raise e
          | Diverges => Diverges
          end
      | Raise e => Raise e
      | Diverges => Diverges
      end
  end.

(** The names of an update: plain identifiers, and columns of the table. *)
Definition names_ok (sets : list (string * string)) : bool :=
  forallb (fun a => identifier (fst a)) sets.

Definition columns_ok (cols : list (string * affinity)) (sets : list (string * string))
  : bool :=
  forallb (fun a => match column_index cols (fst a) with
                    | Some _ => true
                    | None => false
                    end) sets.

(** A literal in the value list of an insert. *)
Definition literal (s : string) : option value :=
  match s with
  | String "'" s' =>
      match split_at "'" s' with
      | (text, Some EmptyString) => Some (VStr text)
      | _ => None
      end
  | _ => option_map VInt (parse_int s)
  end.

Fixpoint literals (l : list string) : option (list value) :=
  match l with
  | [] => Some []
  | s :: rest =>
      match literal s, literals rest with
      | Some v, Some vs => Some (v :: vs)
      | _, _ => None
      end
  end.

(** The row an insert builds: the listed columns take their values, the
    others are NULL. *)
Fixpoint lookup_field (fields : list string) (vs : list value) (c : string)
  : value :=
  match fields, vs with
  | f :: fields', v :: vs' => if (f =? c)%string then v else lookup_field fields' vs' c
  | _, _ => VNone
  end.

Definition new_row (cols : list (string * affinity)) (fields : list string)
    (vs : list value) : list value :=
  map (fun c => lookup_field fields vs (fst c)) cols.

(** *** Statements *)

Definition no_rows : Cursor := mkCursor [] [].

Definition run_select (d : db) (text : string) : outcome Cursor :=
  let (name, rest) := split_at " " text in
  match rest, find_table d name with
  | None, _ => error "syntax error"
  | _, None => error "no such table"
  | Some EmptyString, Some t => Ok (mkCursor (map fst (columns t)) (rows t))
  | Some w, Some t =>
      match strip "where id = " w with
      | None => error "filter not supported"
      | Some k =>
          match parse_int k, column_index (columns t) "id" with
          | None, _ => error "filter not supported"
          | _, None => error "no such column: id"
          | Some n, Some i =>
              Ok (mkCursor (map fst (columns t)) (filter (id_is i n) (rows t)))
          end
      end
  end.

Definition run_update (d : db) (text : string) : outcome Cursor * db :=
  let (name, rest) := split_at " " text in
  match rest, find_table d name with
  | None, _ => (error "syntax error", d)
  | _, None => (error "no such table", d)
  | Some rest, Some t =>
      match strip "set " rest with
      | None => (error "syntax error", d)
      | Some sets =>
          match read_sets sets (InName EmptyString) [] with
          | None => (error "syntax error", d)
          | Some (sets, w) =>
              match strip "where id=" w with
              | None => (error "syntax error", d)
              | Some k =>
                  if negb (identifier name && names_ok sets)
                  then (error "syntax error", d)
                  else if negb (columns_ok (columns t) sets)
                  then (error "no such column", d)
                  else
                  match parse_int k, column_index (columns t) "id" with
                  | None, _ => (error "syntax error", d)
                  | _, None => (error "no such column: id", d)
                  | Some n, Some i =>
                      match update_rows (columns t) i n sets (rows t) with
                      | Ok rs =>
                          (Ok no_rows,
                           replace_table d name (mkTable (tname t) (columns t) rs))
                      | Raise e => (Raise e, d)
                      | Diverges => (Diverges, d)
                      end
                  end
              end
          end
      end
  end.

Definition run_insert (d : db) (text : string) : outcome Cursor * db :=
  let (name, rest) := split_at " " text in
  match rest, find_table d name with
  | None, _ => (error "syntax error", d)
  | _, None => (error "no such table", d)
  | Some rest, Some t =>
      match strip "(" rest with
      | None => (error "syntax error", d)
      | Some rest =>
          let (fields, rest) := split_at ")" rest in
          match option_map (strip " values (") rest with
          | Some (Some rest) =>
              match split_at ")" rest with
              | (vals, Some EmptyString) =>
                  match literals (pieces "," vals) with
                  | None => (error "syntax error", d)
                  | Some vs =>
                      let r := new_row (columns t) (pieces "," fields) vs in
                      (Ok no_rows,
                       replace_table d name
                         (mkTable (tname t) (columns t) (rows t ++ [r])%list))
                  end
              | _ => (error "syntax error", d)
              end
          | _ => (error "syntax error", d)
          end
      end
  end.

(** [db.execute(stmt)] *)
Definition run (stmt : string) (d : db) : outcome Cursor * db :=
  match strip "select * from " stmt with
  | Some text => (run_select d text, d)
  | None =>
      match strip "update " stmt with
      | Some text => run_update d text
      | None =>
          match strip "insert into " stmt with
          | Some text => run_insert d text
          | None => (error "syntax error", d)
          end
      end
  end.

(** [references d ref k]: the database holds a table [ref], with distinct
    column names and a column [id], and a row of it has the identifier [k]. *)
Definition references (d : db) (ref : string) (k : Z) : Prop :=
  lacks " " ref = true /\
  exists tb j,
    find_table d ref = Some tb /\
    NoDup (map fst (columns tb)) /\
    column_index (columns tb) "id" = Some j /\
    exists row, In row (rows tb) /\ id_is j k row = true.



#[global] Instance connection : Connection db := {
  execute := run;
  commit d := (Ok tt, d)
}.

End MiniSQL.


(** ** The scenario of the specification

    Tables [people(id, name, department_id)] and [department(id, name)],
    with the rows [department(1, 'Eng')] and [people(5, 'Ann', 1)]. *)

Definition department : MiniSQL.table :=
  MiniSQL.mkTable "department"
    [("id", MiniSQL.INTEGER); ("name", MiniSQL.TEXT)]
    [[VInt 1; VStr "Eng"]].

Definition people : MiniSQL.table :=
  MiniSQL.mkTable "people"
    [("id", MiniSQL.INTEGER); ("name", MiniSQL.TEXT);
     ("department_id", MiniSQL.INTEGER)]
    [[VInt 5; VStr "Ann"; VInt 1]].

Definition company : MiniSQL.db := [people; department].

(** The same tables when Ann has no department. *)
Definition people_null : MiniSQL.table :=
  MiniSQL.mkTable "people"
    [("id", MiniSQL.INTEGER); ("name", MiniSQL.TEXT);
     ("department_id", MiniSQL.INTEGER)]
    [[VInt 5; VStr "Ann"; VNone]].

Definition company_null : MiniSQL.db := [people_null; department].

(** The same tables when Ann refers to a department that does not exist. *)
Definition people_dangling : MiniSQL.table :=
  MiniSQL.mkTable "people"
    [("id", MiniSQL.INTEGER); ("name", MiniSQL.TEXT);
     ("department_id", MiniSQL.INTEGER)]
    [[VInt 5; VStr "Ann"; VInt 9]].

Definition company_dangling : MiniSQL.db := [people_dangling; department].





(** [query] on ['id = 5'], then [save] of the first Record returned. *)
Definition query_then_save (d : MiniSQL.db) : outcome unit * MiniSQL.db :=
  (objs <- query 2 "people" "id = 5" true ;;
   match objs with
   | r :: _ => save "people" r
   | [] => ret tt
   end) d.

(** The rows of [people]. *)
Definition people_rows (d : MiniSQL.db) : option (list (list value)) :=
  option_map MiniSQL.rows (MiniSQL.find_table d "people").

(** A table that refers to itself: [node(id, node_id)] with the row
    [node(1, 1)]. *)
Definition node : MiniSQL.table :=
  MiniSQL.mkTable "node"
    [("id", MiniSQL.INTEGER); ("node_id", MiniSQL.INTEGER)]
    [[VInt 1; VInt 1]].

Definition looped : MiniSQL.db := [node].

(** A rank on table names for these tables: [people] refers to
    [department].  The name of a table ends at the first blank. *)
Definition company_rank (table : string) : nat :=
  if (fst (MiniSQL.split_at " " table) =? "people")%string then 1 else 0.

(** The Record that [query] builds for Ann. *)
Definition ann : Pormo :=
  [("id", VInt 5); ("name", VStr "Ann");
   ("department_id", VObj [("id", VInt 1); ("name", VStr "Eng")])].

(** A Record made by hand, not yet saved. *)
Definition bob : Pormo := [("id", VInt 0); ("name", VStr "Bob")].

(** A Record that carries an [id] of its own choosing. *)
Definition carol : Pormo := [("id", VInt 7); ("name", VStr "Carol")].

(** ** Further properties: definitions *)

From Stdlib Require OrderedTypeEx Sorted.

(** The order of [dir]: [a <= b] on names. *)
Definition name_le (a b : string) : Prop := String.leb a b = true.


(** A statement that reads: it starts with [select * from ]. *)
Definition is_select (e : event) : Prop :=
  match e with
  | Executed stmt => exists rest, stmt = "select * from " ++ rest
  | Committed => False
  end.

(** [extends P tr t]: the calls recorded in [t] are those of [tr] followed
    by calls that all satisfy [P]. *)
Definition extends {DB : Type} (P : event -> Prop) (tr : list event) (t : Traced DB)
  : Prop :=
  exists evs, trace t = (tr ++ evs)%list /\ Forall P evs.

(** [always I c]: from a database in [I], whatever the outcome of [c], the
    database it leaves is in [I]. *)
Definition always {DB A : Type} (I : DB -> Prop) (c : M DB A) : Prop :=
  forall d, I d -> I (snd (c d)).


(** Records and cursors to run the further properties on. *)
Definition nameless : Pormo := [("name", VStr "Bob")].

Definition mislabeled : Pormo := [("id", VStr "five"); ("name", VStr "Bob")].

Definition ann_renamed : Pormo :=
  [("id", VInt 5); ("name", VStr "Anna");
   ("department_id", VObj [("id", VInt 1); ("name", VStr "Eng")])].

Definition people_cursor : Cursor :=
  mkCursor ["id"; "name"; "department_id"] [[VInt 5; VStr "Ann"; VInt 1]].


Definition text_key_cursor : Cursor :=
  mkCursor ["id"; "department_id"] [[VInt 5; VStr "Eng"]].

(** ** Basic facts *)

Lemma insert_name_perm x l : Permutation (insert_name x l) (x :: l).
Proof.
  induction l as [|y l IH]; simpl; [reflexivity|].
  destruct (String.leb x y); [reflexivity|].
  rewrite IH. apply perm_swap.
Qed.

Lemma sorted_perm l : Permutation (sorted l) l.
Proof.
  induction l as [|x l IH]; simpl; [constructor|].
  rewrite insert_name_perm. now constructor.
Qed.

Lemma sorted_In x l : In x (sorted l) <-> In x l.
Proof.
  split; apply Permutation_in; [|symmetry]; apply sorted_perm.
Qed.

Lemma getattr_Some_In obj name v :
  getattr obj name = Some v -> In name (map fst obj).
Proof.
  induction obj as [|[k w] obj IH]; simpl; [discriminate|].
  destruct (String.eqb_spec k name); auto.
Qed.

Lemma getattr_In obj name :
  In name (map fst obj) -> exists v, getattr obj name = Some v.
Proof.
  induction obj as [|[k w] obj IH]; simpl; [tauto|].
  intros [->|H].
  - rewrite String.eqb_refl. eauto.
  - destruct (k =? name)%string; eauto.
Qed.

Section Facts.

Context {DB : Type}.

Lemma attributes_total (instance : Pormo) fields (d : DB) :
  (forall f, In f fields -> In f (map fst instance)) ->
  attributes instance fields d = (Ok (map (field_value instance) fields), d).
Proof.
  induction fields as [|f fields IH]; intros Hin; simpl; [reflexivity|].
  destruct (getattr_In instance f) as [v Hv]; [apply Hin; now left|].
  unfold bind, attribute, field_value. rewrite Hv. simpl.
  rewrite IH by (intros; apply Hin; now right). reflexivity.
Qed.

Lemma public_fields_In instance f :
  In f (public_fields instance) <-> In f (map fst instance) /\ public f = true.
Proof.
  unfold public_fields, dir. rewrite filter_In, sorted_In. tauto.
Qed.

Lemma attributes_public (instance : Pormo) (d : DB) :
  attributes instance (public_fields instance) d = (Ok (field_values instance), d).
Proof.
  apply attributes_total. intros f Hf. now apply public_fields_In in Hf.
Qed.

(** The index loop of [flatten] computes the flattened view. *)
Lemma flatten_loop (pre rest : list value) (d : DB) :
  for_each (seq (List.length pre) (List.length rest)) flatten_step (pre ++ rest)%list d =
  (match flat_all rest with
   | Some rest' => Ok (pre ++ rest')%list
   | None => Raise AttributeError
   end, d).
Proof.
  revert pre. induction rest as [|v rest IH]; intros pre; simpl.
  - reflexivity.
  - assert (Hnth : nth_error (pre ++ v :: rest)%list (List.length pre) = Some v).
    { rewrite nth_error_app2 by lia. now rewrite Nat.sub_diag. }
    assert (Hset : forall x, list_set (List.length pre) x (pre ++ v :: rest)%list
                             = (pre ++ x :: rest)%list).
    { intros x. clear. induction pre; simpl; congruence. }
    assert (Hnext : forall x,
      for_each (seq (S (List.length pre)) (List.length rest)) flatten_step
               (pre ++ x :: rest)%list d =
      (match flat_all rest with
       | Some rest' => Ok (pre ++ x :: rest')%list
       | None => Raise AttributeError
       end, d)).
    { intros x. specialize (IH (pre ++ [x])%list).
      rewrite length_app, Nat.add_1_r, <- app_assoc in IH. simpl in IH.
      rewrite IH. destruct (flat_all rest); [|reflexivity].
      now rewrite <- app_assoc. }
    unfold bind at 1. unfold flatten_step at 1. unfold bind, index.
    rewrite Hnth. simpl.
    destruct v as [n|s| |o]; simpl; try (rewrite Hnext; now destruct (flat_all rest)).
    destruct (getattr o "id") as [x|]; simpl; [|reflexivity].
    rewrite Hset, Hnext. now destruct (flat_all rest).
Qed.

Lemma flatten_correct (values : list value) (d : DB) :
  flatten values d =
  (match flat_all values with
   | Some vs => Ok vs
   | None => Raise AttributeError
   end, d).
Proof.
  unfold flatten. apply (flatten_loop [] values d).
Qed.

End Facts.

(** ** The two paths of [save] *)

Lemma str_join_not_str sep (vs : list value) v :
  In v vs -> (forall s, v <> VStr s) -> str_join sep vs = Raise TypeError.
Proof.
  induction vs as [|x vs IH]; intros Hin Hv; [contradiction|].
  destruct Hin as [->|Hin].
  - destruct v; try reflexivity. now elim (Hv s).
  - specialize (IH Hin Hv). simpl. rewrite IH.
    destruct x; try reflexivity. destruct vs; [contradiction|reflexivity].
Qed.

Lemma flat_all_In vs vs' v :
  flat_all vs = Some vs' -> In v vs -> exists v', flat v = Some v' /\ In v' vs'.
Proof.
  revert vs'. induction vs as [|x vs IH]; intros vs' H Hin; [contradiction|].
  simpl in H. destruct (flat x) as [x'|] eqn:Hx; [|discriminate].
  destruct (flat_all vs) as [r|]; [|discriminate]. injection H as <-.
  destruct Hin as [->|Hin].
  - exists x'. split; [assumption|now left].
  - destruct (IH r eq_refl Hin) as (v' & ? & ?). exists v'. split; [assumption|now right].
Qed.

Lemma public_id : public "id" = true.
Proof. reflexivity. Qed.

(** The values that the insert path hands to [','.join] always hold the
    number stored in [id], so the join raises. *)
Lemma insert_values_raise (instance : Pormo) n vs :
  getattr instance "id" = Some (VInt n) ->
  flat_all (field_values instance) = Some vs ->
  str_join "," vs = Raise TypeError.
Proof.
  intros Hid Hflat.
  assert (Hin : In (VInt n) (field_values instance)).
  { unfold field_values. apply in_map_iff. exists "id". split.
    - unfold field_value. now rewrite Hid.
    - apply public_fields_In. split; [|apply public_id].
      eapply getattr_Some_In; eassumption. }
  destruct (flat_all_In _ _ _ Hflat Hin) as (v' & Hv' & Hin').
  simpl in Hv'. injection Hv' as <-.
  eapply str_join_not_str; [eassumption|discriminate].
Qed.

Section SavePaths.

Context {DB : Type} {conn : Connection DB}.

(** What is left of [save] once [exists] is known. *)
Lemma save_tail (instance : Pormo) (k : list string -> list value -> M DB unit) (d : DB) :
  (values <- attributes instance (public_fields instance) ;;
   values <- flatten values ;;
   k (public_fields instance) values) d =
  match flat_all (field_values instance) with
  | Some vs => k (public_fields instance) vs d
  | None => (Raise AttributeError, d)
  end.
Proof.
  unfold bind at 1. rewrite attributes_public.
  unfold bind at 1. rewrite flatten_correct.
  now destruct (flat_all (field_values instance)).
Qed.

Lemma save_unfold table (instance : Pormo) :
  save table instance =
  (id0 <- attribute instance "id" ;;
   exists_ <-
     (if eq_zero id0 then ret false
      else
        id1 <- attribute instance "id" ;;
        w <- lift (fmt_i id1) ;;
        cursor <- execute ("select * from " ++ table ++ " where id = " ++ w) ;;
        ret (negb (List.length (fetchall cursor) =? 0)%nat)) ;;
   save_rest table instance exists_).
Proof. reflexivity. Qed.

Lemma save_rest_insert table (instance : Pormo) n (d : DB) :
  getattr instance "id" = Some (VInt n) ->
  save_rest table instance false d =
  (Raise (match flat_all (field_values instance) with
          | Some _ => TypeError
          | None => AttributeError
          end), d).
Proof.
  intros Hid.
  etransitivity.
  { exact (save_tail instance
      (fun fields values =>
         (let fields0 := String.concat "," fields in
          values0 <- lift (str_join "," values) ;;
          execute ("insert into " ++ table ++ " (" ++ fields0 ++ ") values ("
                     ++ values0 ++ ")") ;;; ret tt) ;;; commit) d). }
  destruct (flat_all (field_values instance)) as [vs|] eqn:Hflat; [|reflexivity].
  unfold bind, lift. now rewrite (insert_values_raise instance n vs Hid Hflat).
Qed.

Lemma save_rest_update table (instance : Pormo) n (d : DB) :
  getattr instance "id" = Some (VInt n) ->
  save_rest table instance true d =
  match flat_all (field_values instance) with
  | None => (Raise AttributeError, d)
  | Some vs =>
      match execute (update_stmt table (public_fields instance) vs n) d with
      | (Ok _, d2) => commit d2
      | (Raise e, d2) => (Raise e, d2)
      | (Diverges, d2) => (Diverges, d2)
      end
  end.
Proof.
  intros Hid.
  etransitivity.
  { exact (save_tail instance
      (fun fields values =>
         (id2 <- attribute instance "id" ;;
          w <- lift (fmt_i id2) ;;
          execute ("update " ++ table ++ " set "
                     ++ String.concat "," (map assignment (combine fields values))
                     ++ " where id=" ++ w) ;;; ret tt) ;;; commit) d). }
  destruct (flat_all (field_values instance)) as [vs|]; [|reflexivity].
  unfold bind, attribute, lift. rewrite Hid.
  cbv beta iota delta [fmt_i ret].
  change (execute _ d)
    with (execute (update_stmt table (public_fields instance) vs n) d).
  destruct (execute (update_stmt table (public_fields instance) vs n) d)
    as [[c|e|] d2]; reflexivity.
Qed.

(** A Record whose [id] is [0]: no probe, and the insert path raises before
    anything is sent. *)
Lemma save_id_zero table (instance : Pormo) (d : DB) :
  getattr instance "id" = Some (VInt 0) ->
  save table instance d =
  (Raise (match flat_all (field_values instance) with
          | Some _ => TypeError
          | None => AttributeError
          end), d).
Proof.
  intros Hid. rewrite save_unfold.
  unfold bind, attribute. rewrite Hid.
  cbv beta iota delta [eq_zero ret Z.eqb].
  now apply save_rest_insert with (n := 0%Z).
Qed.

(** A Record with a nonzero [id]: the probe is sent, and what it returns
    picks the path. *)
Lemma save_id_nonzero table (instance : Pormo) n (d : DB) :
  getattr instance "id" = Some (VInt n) -> n <> 0%Z ->
  save table instance d =
  match execute (probe table n) d with
  | (Ok cursor, d1) =>
      match fetchall cursor with
      | [] =>
          (Raise (match flat_all (field_values instance) with
                  | Some _ => TypeError
                  | None => AttributeError
                  end), d1)
      | _ :: _ =>
          match flat_all (field_values instance) with
          | None => (Raise AttributeError, d1)
          | Some vs =>
              match execute (update_stmt table (public_fields instance) vs n) d1 with
              | (Ok _, d2) => commit d2
              | (Raise e, d2) => (Raise e, d2)
              | (Diverges, d2) => (Diverges, d2)
              end
          end
      end
  | (Raise e, d1) => (Raise e, d1)
  | (Diverges, d1) => (Diverges, d1)
  end.
Proof.
  intros Hid Hn. rewrite save_unfold.
  unfold bind, attribute, lift. rewrite Hid.
  cbv beta iota delta [eq_zero fmt_i ret].
  apply Z.eqb_neq in Hn. rewrite Hn.
  change (execute _ d) with (execute (probe table n) d).
  destruct (execute (probe table n) d) as [[cursor|e|] d1]; try reflexivity.
  destruct (fetchall cursor) as [|row rows]; cbn [List.length Nat.eqb negb].
  - now apply save_rest_insert with (n := n).
  - now apply save_rest_update.
Qed.

End SavePaths.


(** ** What [save] sends *)

Section SaveTrace.

Context {DB : Type} {conn : Connection DB}.

Lemma traced_execute stmt (d : DB) tr :
  execute stmt (mkTraced d tr) =
  (fst (execute stmt d), mkTraced (snd (execute stmt d)) (tr ++ [Executed stmt])%list).
Proof. simpl. now destruct (execute stmt d). Qed.

Lemma traced_commit (d : DB) tr :
  commit (mkTraced d tr) =
  (fst (commit d), mkTraced (snd (commit d)) (tr ++ [Committed])%list).
Proof. simpl. now destruct (commit d). Qed.

(** C4. A freshly constructed Record whose [id] is [0] is not inserted:
    [save] raises (the TypeError of [','.join(values)], which is handed the
    number [0]; AttributeError when a nested Record has no [id]) and
    nothing is sent to the connection. *)
Theorem save_fresh_record_raises table (instance : Pormo) (d : DB) tr :
  getattr instance "id" = Some (VInt 0) ->
  exists e, (e = TypeError \/ e = AttributeError) /\
    save table instance (mkTraced d tr) = (Raise e, mkTraced d tr).
Proof.
  intros Hid. rewrite (save_id_zero table instance (mkTraced d tr) Hid).
  destruct (flat_all (field_values instance)); eauto.
Qed.

(** A nonzero [id] that the probe does not find. *)
Lemma save_unknown_id table (instance : Pormo) n cursor (d d1 : DB) tr :
  getattr instance "id" = Some (VInt n) -> n <> 0%Z ->
  execute (probe table n) d = (Ok cursor, d1) ->
  fetchall cursor = [] ->
  save table instance (mkTraced d tr) =
  (Raise (match flat_all (field_values instance) with
          | Some _ => TypeError
          | None => AttributeError
          end),
   mkTraced d1 (tr ++ [Executed (probe table n)])%list).
Proof.
  intros Hid Hn Hprobe Hrows.
  rewrite (save_id_nonzero table instance n (mkTraced d tr) Hid Hn).
  rewrite traced_execute, Hprobe. simpl fst. simpl snd. cbv iota.
  now rewrite Hrows.
Qed.

(** C3. A Record whose nonzero [id] matches no row: the probe is sent, and
    then the insert path raises; no insert statement follows the probe. *)
Theorem save_unknown_id_raises table (instance : Pormo) n cursor (d d1 : DB) tr :
  getattr instance "id" = Some (VInt n) -> n <> 0%Z ->
  execute (probe table n) d = (Ok cursor, d1) ->
  fetchall cursor = [] ->
  exists e, (e = TypeError \/ e = AttributeError) /\
    save table instance (mkTraced d tr) =
    (Raise e, mkTraced d1 (tr ++ [Executed (probe table n)])%list).
Proof.
  intros Hid Hn Hprobe Hrows.
  rewrite (save_unknown_id table instance n cursor d d1 tr Hid Hn Hprobe Hrows).
  destruct (flat_all (field_values instance)); eauto.
Qed.

(** A Record whose nonzero [id] matches a row: the probe and then the
    update over the flattened values are sent, and the commit follows when
    the update went through. *)
Lemma save_known_id table (instance : Pormo) n cursor vs (d d1 : DB) tr :
  getattr instance "id" = Some (VInt n) -> n <> 0%Z ->
  execute (probe table n) d = (Ok cursor, d1) ->
  fetchall cursor <> [] ->
  flat_all (field_values instance) = Some vs ->
  let stmt := update_stmt table (public_fields instance) vs n in
  save table instance (mkTraced d tr) =
  match execute stmt d1 with
  | (Ok _, d2) =>
      (fst (commit d2),
       mkTraced (snd (commit d2))
         (tr ++ [Executed (probe table n); Executed stmt; Committed])%list)
  | (Raise e, d2) =>
      (Raise e, mkTraced d2 (tr ++ [Executed (probe table n); Executed stmt])%list)
  | (Diverges, d2) =>
      (Diverges, mkTraced d2 (tr ++ [Executed (probe table n); Executed stmt])%list)
  end.
Proof.
  intros Hid Hn Hprobe Hrows Hflat stmt.
  rewrite (save_id_nonzero table instance n (mkTraced d tr) Hid Hn).
  rewrite traced_execute, Hprobe. simpl fst. simpl snd. cbv iota.
  destruct (fetchall cursor) as [|row rows]; [congruence|].
  rewrite Hflat, traced_execute. fold stmt.
  destruct (execute stmt d1) as [[c|e|] d2]; simpl fst; simpl snd; cbv iota;
    rewrite <- app_assoc; try reflexivity.
  rewrite traced_commit, <- app_assoc. reflexivity.
Qed.

(** C5. Whatever the Record and the connection, [save] sends nothing, or
    the probe alone, or the probe and an update: no insert statement is
    ever sent, quoted or not. *)
Theorem save_sends_no_insert table (instance : Pormo) (d : DB) tr :
  let t' := snd (save table instance (mkTraced d tr)) in
  trace t' = tr \/
  exists n, getattr instance "id" = Some (VInt n) /\
    (trace t' = (tr ++ [Executed (probe table n)])%list \/
     exists vs,
       flat_all (field_values instance) = Some vs /\
       let stmt := update_stmt table (public_fields instance) vs n in
       (trace t' = (tr ++ [Executed (probe table n); Executed stmt])%list \/
        trace t' = (tr ++ [Executed (probe table n); Executed stmt; Committed])%list)).
Proof.
  intros t'. subst t'.
  destruct (getattr instance "id") as [v|] eqn:Hid.
  2:{ left. rewrite save_unfold. unfold bind, attribute. now rewrite Hid. }
  destruct v as [n|s| |o];
    try (left; rewrite save_unfold; unfold bind, attribute, lift;
         rewrite Hid; reflexivity).
  destruct (Z.eq_dec n 0) as [->|Hn].
  - left. now rewrite (save_id_zero table instance (mkTraced d tr) Hid).
  - right. exists n. split; [reflexivity|].
    destruct (execute (probe table n) d) as [[cursor|e|] d1] eqn:Hprobe.
    + destruct (fetchall cursor) as [|row rows] eqn:Hrows.
      * left.
        now rewrite (save_unknown_id table instance n cursor d d1 tr Hid Hn Hprobe Hrows).
      * destruct (flat_all (field_values instance)) as [vs|] eqn:Hflat.
        -- right. exists vs. split; [reflexivity|].
           rewrite (save_known_id table instance n cursor vs d d1 tr Hid Hn Hprobe
                      ltac:(congruence) Hflat).
           destruct (execute _ d1) as [[c|e|] d2]; simpl; auto.
        -- left. rewrite (save_id_nonzero table instance n (mkTraced d tr) Hid Hn).
           rewrite traced_execute, Hprobe. simpl fst. simpl snd. cbv iota.
           now rewrite Hrows, Hflat.
    + left. rewrite (save_id_nonzero table instance n (mkTraced d tr) Hid Hn).
      now rewrite traced_execute, Hprobe.
    + left. rewrite (save_id_nonzero table instance n (mkTraced d tr) Hid Hn).
      now rewrite traced_execute, Hprobe.
Qed.

End SaveTrace.

Lemma flat_all_fields (instance : Pormo) fields :
  (forall f, In f fields -> In f (map fst instance)) ->
  (forall f o, getattr instance f = Some (VObj o) -> exists v, getattr o "id" = Some v) ->
  exists vs, flat_all (map (field_value instance) fields) = Some vs /\
             Forall2 (flattened instance) fields vs.
Proof.
  intros Hin Hnested. induction fields as [|f fields IH]; simpl.
  - exists []. split; [reflexivity|constructor].
  - destruct IH as (vs & Hvs & HF); [intros; apply Hin; now right|].
    destruct (getattr_In instance f) as [v Hv]; [apply Hin; now left|].
    assert (Hflat : exists v', flat v = Some v' /\ flattened instance f v').
    { destruct v as [n|s| |o]; simpl.
      - exists (VInt n). split; [reflexivity|]. exists (VInt n). auto.
      - exists (VStr s). split; [reflexivity|]. exists (VStr s). auto.
      - exists VNone. split; [reflexivity|]. exists VNone. auto.
      - destruct (Hnested f o Hv) as [v' Hv']. exists v'. split; [assumption|].
        exists (VObj o). auto. }
    destruct Hflat as (v' & Hv' & Hfl).
    exists (v' :: vs). unfold field_value at 1. rewrite Hv, Hv', Hvs.
    split; [reflexivity|now constructor].
Qed.

Section SaveFlattens.

Context {DB : Type} {conn : Connection DB}.

(** C6. When [save] reaches a statement, every field whose value is a
    Record enters it with that Record's [id]: the update that follows the
    probe is built from the flattened values, field by field.  (The insert
    path raises after the same flattening, so no other statement exists.) *)
Theorem save_flattens_nested_records table (instance : Pormo) n cursor (d d1 : DB) tr :
  getattr instance "id" = Some (VInt n) -> n <> 0%Z ->
  execute (probe table n) d = (Ok cursor, d1) ->
  fetchall cursor <> [] ->
  (forall f o, getattr instance f = Some (VObj o) -> exists v, getattr o "id" = Some v) ->
  exists vs evs,
    Forall2 (flattened instance) (public_fields instance) vs /\
    trace (snd (save table instance (mkTraced d tr))) =
    (tr ++ [Executed (probe table n);
            Executed (update_stmt table (public_fields instance) vs n)] ++ evs)%list.
Proof.
  intros Hid Hn Hprobe Hrows Hnested.
  destruct (flat_all_fields instance (public_fields instance)) as (vs & Hflat & HF);
    [intros f Hf; now apply public_fields_In in Hf|assumption|].
  exists vs.
  rewrite (save_known_id table instance n cursor vs d d1 tr Hid Hn Hprobe Hrows Hflat).
  destruct (execute _ d1) as [[c|e|] d2]; simpl snd; simpl trace.
  - exists [Committed]. split; [assumption|reflexivity].
  - exists []. split; [assumption|reflexivity].
  - exists []. split; [assumption|reflexivity].
Qed.

End SaveFlattens.

(** *** The scenario, saved *)

Example save_ann :
  save "people" ann (mkTraced company []) =
  (Ok tt,
   mkTraced company
     [Executed "select * from people where id = 5";
      Executed "update people set department_id='1',id='5',name='Ann' where id=5";
      Committed]).
Proof. vm_compute. reflexivity. Qed.

Example save_bob :
  save "people" bob (mkTraced company []) = (Raise TypeError, mkTraced company []).
Proof. vm_compute. reflexivity. Qed.

Example save_carol :
  save "people" carol (mkTraced company []) =
  (Raise TypeError, mkTraced company [Executed "select * from people where id = 7"]).
Proof. vm_compute. reflexivity. Qed.

(** Lines 105 to 108 on values that are all text: the statement that would
    be sent carries them bare, not in quotes. *)
Example insert_text_unquoted :
  save_rest "people" [("name", VStr "Bob")] false (mkTraced company []) =
  (Raise (DatabaseError "syntax error"),
   mkTraced company [Executed "insert into people (name) values (Bob)"]).
Proof. vm_compute. reflexivity. Qed.

Lemma save_fresh_record_raises_witness :
  exists e, (e = TypeError \/ e = AttributeError) /\
    save "people" bob (mkTraced company []) = (Raise e, mkTraced company []).
Proof. apply (save_fresh_record_raises "people" bob company []). reflexivity. Defined.

Lemma save_unknown_id_raises_witness :
  exists e, (e = TypeError \/ e = AttributeError) /\
    save "people" carol (mkTraced company []) =
    (Raise e, mkTraced company ([] ++ [Executed (probe "people" 7)])%list).
Proof.
  apply (save_unknown_id_raises "people" carol 7
           (mkCursor ["id"; "name"; "department_id"] []) company company []).
  - reflexivity.
  - lia.
  - vm_compute. reflexivity.
  - reflexivity.
Defined.

Lemma save_flattens_nested_records_witness :
  exists vs evs,
    Forall2 (flattened ann) (public_fields ann) vs /\
    trace (snd (save "people" ann (mkTraced company []))) =
    ([] ++ [Executed (probe "people" 5);
            Executed (update_stmt "people" (public_fields ann) vs 5)] ++ evs)%list.
Proof.
  apply (save_flattens_nested_records "people" ann 5
           (mkCursor ["id"; "name"; "department_id"] [[VInt 5; VStr "Ann"; VInt 1]])
           company company []).
  - reflexivity.
  - lia.
  - vm_compute. reflexivity.
  - discriminate.
  - intros f o. unfold ann, getattr.
    destruct (String.eqb_spec "id" f); [intros [=]|].
    destruct (String.eqb_spec "name" f); [intros [=]|].
    destruct (String.eqb_spec "department_id" f); [|intros [=]].
    intros [= <-]. exists (VInt 1). reflexivity.
Defined.

(** ** Slices *)

Lemma length_append (s t : string) :
  String.length (s ++ t) = String.length s + String.length t.
Proof. induction s; simpl; congruence. Qed.

Lemma substring_0_length (s : string) : substring 0 (String.length s) s = s.
Proof. induction s; simpl; congruence. Qed.

Lemma substring_prefix (p s : string) : substring 0 (String.length p) (p ++ s) = p.
Proof. induction p; simpl; [now destruct s|congruence]. Qed.

Lemma substring_suffix (p s : string) n :
  substring (String.length p) n (p ++ s) = substring 0 n s.
Proof. induction p; simpl; auto. Qed.

Lemma substring_split (s : string) n :
  n <= String.length s ->
  s = substring 0 n s ++ substring n (String.length s - n) s.
Proof.
  revert n. induction s as [|a s IH]; intros n Hn.
  - now destruct n.
  - destruct n as [|n].
    + cbn [substring append]. simpl String.length. rewrite Nat.sub_0_r.
      now rewrite substring_0_length.
    + simpl in Hn. apply le_S_n in Hn. simpl. f_equal. now apply IH.
Qed.

Lemma slice_last_append (p s : string) :
  slice_last (String.length s) (p ++ s) = s.
Proof.
  unfold slice_last. rewrite length_append, Nat.add_sub.
  rewrite substring_suffix. apply substring_0_length.
Qed.

Lemma slice_drop_last_append (p s : string) :
  slice_drop_last (String.length s) (p ++ s) = p.
Proof.
  unfold slice_drop_last. rewrite length_append, Nat.add_sub.
  apply substring_prefix.
Qed.

Lemma slice_split (s : string) n :
  n <= String.length s -> s = slice_drop_last n s ++ slice_last n s.
Proof.
  intros Hn. unfold slice_drop_last, slice_last.
  rewrite (substring_split s (String.length s - n)) at 1 by lia.
  do 2 f_equal. lia.
Qed.

(** The test of line 152 is the foreign key convention. *)
Lemma is_fkey_convention fkeylookup name :
  is_fkey fkeylookup name = true <-> fkey_convention fkeylookup name.
Proof.
  unfold is_fkey, fkey_convention. rewrite !andb_true_iff, Nat.ltb_lt, String.eqb_eq.
  split.
  - intros [[Hl Hlen] Hid]. repeat split; try assumption.
    exists (slice_drop_last 3 name). rewrite <- Hid.
    apply slice_split. lia.
  - intros (Hl & Hlen & ref & ->). repeat split; try assumption.
    apply (slice_last_append ref "_id").
Qed.

Lemma is_fkey_ref ref :
  slice_drop_last 3 (ref ++ "_id") = ref.
Proof. apply (slice_drop_last_append ref "_id"). Qed.

(** ** The row mapper, column by column *)

Section RowMapper.

Context {DB : Type} {conn : Connection DB}.

Variable query_rec : string -> string -> M DB (list Pormo).

Lemma orm_col_resolve fkeylookup rownames row i name val obj (d : DB) :
  nth_error rownames i = Some name ->
  nth_error row i = Some val ->
  orm_col query_rec fkeylookup rownames row i obj d =
  (v <- resolve query_rec fkeylookup name val ;; ret (setattr obj name v)) d.
Proof.
  intros Hname Hval. unfold orm_col, index, resolve. rewrite Hname, Hval.
  unfold bind at 1 2. unfold ret at 1 2.
  destruct (is_fkey fkeylookup name); [|reflexivity].
  unfold bind, lift, ret.
  destruct (fmt_i val) as [w| |]; try reflexivity.
  destruct (query_rec _ _ d) as [[[|o r]|e|] d']; reflexivity.
Qed.

(** A column outside the convention takes the raw value, and the
    connection is not used. *)
Lemma orm_col_raw fkeylookup rownames row i name val obj (d : DB) :
  nth_error rownames i = Some name ->
  nth_error row i = Some val ->
  is_fkey fkeylookup name = false ->
  orm_col query_rec fkeylookup rownames row i obj d = (Ok (setattr obj name val), d).
Proof.
  intros Hname Hval Hfk. rewrite (orm_col_resolve _ _ _ _ name val) by assumption.
  unfold bind, resolve. now rewrite Hfk.
Qed.

(** A column inside the convention asks the referenced table. *)
Lemma orm_col_lookup rownames row i ref val obj (d : DB) :
  nth_error rownames i = Some (ref ++ "_id") ->
  nth_error row i = Some val ->
  is_fkey true (ref ++ "_id") = true ->
  orm_col query_rec true rownames row i obj d =
  (w <- lift (fmt_i val) ;;
   r <- query_rec ref ("id = " ++ w) ;;
   ret (setattr obj (ref ++ "_id") (match r with o :: _ => VObj o | [] => VNone end))) d.
Proof.
  intros Hname Hval Hfk.
  rewrite (orm_col_resolve _ _ _ _ (ref ++ "_id") val) by assumption.
  unfold resolve. rewrite Hfk, (is_fkey_ref ref).
  unfold bind, lift, ret.
  destruct (fmt_i val) as [w| |]; try reflexivity.
  destruct (query_rec _ _ d) as [[[|o r]|e|] d']; reflexivity.
Qed.

(** C8. In the row mapper a column is resolved through the referenced
    table exactly when lookup is enabled and its name ends in [_id] and has
    more than 3 characters; any other column, among them [id], [_id] and
    every name that does not end in [_id], is assigned its raw value. *)
Theorem foreign_key_trigger fkeylookup rownames row i name val obj (d : DB) :
  nth_error rownames i = Some name ->
  nth_error row i = Some val ->
  (fkey_convention fkeylookup name ->
   exists ref, name = ref ++ "_id" /\ ref <> "" /\
     orm_col query_rec fkeylookup rownames row i obj d =
     (w <- lift (fmt_i val) ;;
      r <- query_rec ref ("id = " ++ w) ;;
      ret (setattr obj name (match r with o :: _ => VObj o | [] => VNone end))) d) /\
  (~ fkey_convention fkeylookup name ->
   orm_col query_rec fkeylookup rownames row i obj d = (Ok (setattr obj name val), d)) /\
  (name = "id" \/ name = "_id" \/ ~ (exists ref, name = ref ++ "_id") ->
   ~ fkey_convention fkeylookup name).
Proof.
  intros Hname Hval. split; [|split].
  - intros Hconv. pose proof Hconv as (Hl & Hlen & ref & ->).
    exists ref. split; [reflexivity|]. split.
    + intros ->. simpl in Hlen. lia.
    + subst fkeylookup. apply orm_col_lookup; try assumption.
      now apply is_fkey_convention.
  - intros Hconv. apply orm_col_raw with (name := name); try assumption.
    destruct (is_fkey fkeylookup name) eqn:Hfk; [|reflexivity].
    now apply is_fkey_convention in Hfk.
  - intros [->|[->|Hno]] (Hl & Hlen & Href); simpl in Hlen; try lia.
    now apply Hno.
Qed.

(** A null in a foreign key column: the integer conversion raises before
    the referenced table is asked. *)
Lemma orm_col_null rownames row i name obj (d : DB) :
  nth_error rownames i = Some name ->
  nth_error row i = Some VNone ->
  is_fkey true name = true ->
  orm_col query_rec true rownames row i obj d = (Raise TypeError, d).
Proof.
  intros Hname Hval Hfk. rewrite (orm_col_resolve _ _ _ _ name VNone) by assumption.
  unfold bind, resolve. now rewrite Hfk.
Qed.

End RowMapper.

(** ** Loops *)

Section Loops.

Context {DB : Type}.

Lemma for_each_Ok_In A S (l : list A) (body : A -> S -> M DB S) s (d : DB) s' d' :
  for_each l body s d = (Ok s', d') ->
  forall x, In x l -> exists s1 d1 s2 d2, body x s1 d1 = (Ok s2, d2).
Proof.
  revert s d. induction l as [|y l IH]; intros s d H x Hin; [contradiction|].
  simpl in H. unfold bind in H.
  destruct (body y s d) as [[s1| |] d1] eqn:Hy; try discriminate.
  destruct Hin as [->|Hin]; eauto.
Qed.

Lemma settles_ret A (I : DB -> Prop) (a : A) : settles I (ret a).
Proof. intros d Hd. exact Hd. Qed.

Lemma settles_raise A (I : DB -> Prop) e : settles I (raise e : M DB A).
Proof. intros d Hd. exact Logic.I. Qed.

Lemma settles_bind A B (I : DB -> Prop) (c : M DB A) (k : A -> M DB B) :
  settles I c -> (forall a, settles I (k a)) -> settles I (bind c k).
Proof.
  intros Hc Hk d Hd. unfold bind. specialize (Hc d Hd).
  destruct (c d) as [[a|e|] d1]; [now apply Hk|exact Logic.I|contradiction].
Qed.

Lemma settles_index A (I : DB -> Prop) (l : list A) i : settles I (index l i).
Proof. unfold index. destruct (nth_error l i); [apply settles_ret|apply settles_raise]. Qed.

Lemma settles_fmt_i (I : DB -> Prop) v : settles I (lift (fmt_i v)).
Proof. intros d Hd. unfold lift. destruct v; simpl; auto. Qed.

Lemma settles_for_each A S (I : DB -> Prop) (l : list A) (body : A -> S -> M DB S) :
  (forall x, In x l -> forall s, settles I (body x s)) ->
  forall s, settles I (for_each l body s).
Proof.
  induction l as [|x l IH]; intros Hbody s; simpl.
  - apply settles_ret.
  - apply settles_bind; [apply Hbody; now left|].
    intros s'. apply IH. intros y Hy. apply Hbody. now right.
Qed.

Lemma agrees_refl A (c : M DB A) : agrees c c.
Proof. intros d _. reflexivity. Qed.

Lemma agrees_bind A B (c1 c2 : M DB A) (k1 k2 : A -> M DB B) :
  agrees c1 c2 -> (forall a, agrees (k1 a) (k2 a)) ->
  agrees (bind c1 k1) (bind c2 k2).
Proof.
  intros Hc Hk d Hnd. unfold bind in *.
  rewrite (Hc d); [|intros E; apply Hnd; destruct (c1 d) as [[a|e|] d1];
                     simpl in E; try discriminate; reflexivity].
  destruct (c1 d) as [[a|e|] d1]; try reflexivity. now apply Hk.
Qed.

Lemma agrees_for_each A S (l : list A) (body1 body2 : A -> S -> M DB S) :
  (forall x s, agrees (body1 x s) (body2 x s)) ->
  forall s, agrees (for_each l body1 s) (for_each l body2 s).
Proof.
  intros Hbody. induction l as [|x l IH]; intros s; simpl.
  - apply agrees_refl.
  - apply agrees_bind; [apply Hbody|apply IH].
Qed.

End Loops.

(** ** The depth of the recursion *)

Section Depth.

Context {DB : Type} {conn : Connection DB}.

Lemma orm_with_agrees (q1 q2 : string -> string -> M DB (list Pormo))
    table cursor fkeylookup :
  (forall t w, agrees (q1 t w) (q2 t w)) ->
  agrees (orm_with q1 table cursor fkeylookup) (orm_with q2 table cursor fkeylookup).
Proof.
  intros Hq. unfold orm_with. apply agrees_for_each. intros row objs.
  unfold orm_row. apply agrees_bind; [|intros; apply agrees_refl].
  apply agrees_for_each. intros i obj. unfold orm_col.
  apply agrees_bind; [apply agrees_refl|]. intros name.
  apply agrees_bind; [apply agrees_refl|]. intros val.
  destruct (is_fkey fkeylookup name); [|apply agrees_refl].
  apply agrees_bind; [apply agrees_refl|]. intros w.
  apply agrees_bind; [apply Hq|]. intros r. apply agrees_refl.
Qed.

(** More depth does not change a query that has returned or raised. *)
Lemma query_deeper fuel :
  forall table where_ fkeylookup,
    agrees (query fuel table where_ fkeylookup) (query (S fuel) table where_ fkeylookup).
Proof.
  induction fuel as [|fuel IH]; intros table where_ fkeylookup.
  - intros d Hnd. now elim Hnd.
  - change (query (S (S fuel)) table where_ fkeylookup)
      with (cursor <- execute (select_stmt table
              (if negb (String.length where_ =? 0)%nat then "where " ++ where_ else where_)) ;;
            orm_with (fun t w => query (S fuel) t w true) table cursor fkeylookup).
    change (query (S fuel) table where_ fkeylookup)
      with (cursor <- execute (select_stmt table
              (if negb (String.length where_ =? 0)%nat then "where " ++ where_ else where_)) ;;
            orm_with (fun t w => query fuel t w true) table cursor fkeylookup).
    apply agrees_bind; [apply agrees_refl|]. intros cursor.
    apply orm_with_agrees. intros t w. apply IH.
Qed.

Lemma query_deeper_add fuel k table where_ fkeylookup (d : DB) :
  fst (query fuel table where_ fkeylookup d) <> Diverges ->
  query (k + fuel) table where_ fkeylookup d = query fuel table where_ fkeylookup d.
Proof.
  intros Hnd. induction k as [|k IH]; [reflexivity|].
  simpl plus. rewrite <- IH. apply query_deeper. now rewrite IH.
Qed.

Lemma orm_col_settles (I : DB -> Prop) (q : string -> string -> M DB (list Pormo))
    fkeylookup rownames row i obj :
  (forall name, In name rownames -> is_fkey fkeylookup name = true ->
                forall w, settles I (q (slice_drop_last 3 name) w)) ->
  settles I (orm_col q fkeylookup rownames row i obj).
Proof.
  intros Hq d Hd. unfold orm_col, index, bind.
  destruct (nth_error rownames i) as [name|] eqn:Hname; [|exact Logic.I].
  unfold ret at 1.
  destruct (nth_error row i) as [val|]; [|exact Logic.I].
  unfold ret at 1.
  destruct (is_fkey fkeylookup name) eqn:Hfk; [|exact Hd].
  unfold lift. destruct (fmt_i val) as [w|e|] eqn:Hw;
    [|exact Logic.I|destruct val; discriminate].
  specialize (Hq name (nth_error_In _ _ Hname) Hfk ("id = " ++ w) d Hd).
  destruct (q (slice_drop_last 3 name) ("id = " ++ w) d) as [[[|o r]|e|] d1];
    try assumption; exact Logic.I.
Qed.

Lemma orm_with_settles (I : DB -> Prop) (q : string -> string -> M DB (list Pormo))
    table cursor fkeylookup :
  (forall name, In name (description cursor) -> is_fkey fkeylookup name = true ->
                forall w, settles I (q (slice_drop_last 3 name) w)) ->
  settles I (orm_with q table cursor fkeylookup).
Proof.
  intros Hq. unfold orm_with. apply settles_for_each. intros row _ objs.
  unfold orm_row. apply settles_bind; [|intros; apply settles_ret].
  apply settles_for_each. intros i _ obj. now apply orm_col_settles.
Qed.

(** With a rank on table names that every foreign key column lowers, a
    query whose depth exceeds the rank of its table returns or raises. *)
Lemma query_settles (I : DB -> Prop) (rank : string -> nat) :
  (forall t w d, I d ->
     match execute (select_stmt t w) d with
     | (Ok cursor, d') =>
         I d' /\
         forall name, In name (description cursor) -> is_fkey true name = true ->
                      rank (slice_drop_last 3 name) < rank t
     | (Raise _, _) => True
     | (Diverges, _) => False
     end) ->
  forall fuel table where_ fkeylookup,
    rank table < fuel -> settles I (query fuel table where_ fkeylookup).
Proof.
  intros Hacyclic. induction fuel as [|fuel IH]; intros table where_ fkeylookup Hrank; [lia|].
  change (query (S fuel) table where_ fkeylookup)
    with (cursor <- execute (select_stmt table
            (if negb (String.length where_ =? 0)%nat then "where " ++ where_ else where_)) ;;
          orm_with (fun t w => query fuel t w true) table cursor fkeylookup).
  intros d Hd. unfold bind.
  specialize (Hacyclic table
    (if negb (String.length where_ =? 0)%nat then "where " ++ where_ else where_) d Hd).
  destruct (execute _ d) as [[cursor|e|] d1]; [|exact Logic.I|contradiction].
  destruct Hacyclic as [Hd1 Hcols]. revert d1 Hd1.
  change (settles I (orm_with (fun t w => query fuel t w true) table cursor fkeylookup)).
  apply orm_with_settles. intros name Hin Hfk w. apply IH.
  assert (Hfk' : is_fkey true name = true).
  { unfold is_fkey in *. apply andb_true_iff in Hfk. destruct Hfk as [Hfk ->].
    apply andb_true_iff in Hfk. destruct Hfk as [_ ->]. reflexivity. }
  specialize (Hcols name Hin Hfk'). lia.
Qed.

End Depth.

(** C9, as amended. With a rank on table names that every foreign key
    column lowers (no table refers to itself, no cycle across tables) and a
    connection that answers every select, [query] terminates: there is one
    outcome, a list of Records or an exception, that every sufficient depth
    of recursion yields. *)
Theorem query_terminates_when_acyclic {DB : Type} {conn : Connection DB}
    (I : DB -> Prop) (rank : string -> nat) :
  (forall t w d, I d ->
     match execute (select_stmt t w) d with
     | (Ok cursor, d') =>
         I d' /\
         forall name, In name (description cursor) -> is_fkey true name = true ->
                      rank (slice_drop_last 3 name) < rank t
     | (Raise _, _) => True
     | (Diverges, _) => False
     end) ->
  forall table where_ fkeylookup d, I d ->
    exists r d', r <> Diverges /\
      forall fuel, rank table < fuel ->
        query fuel table where_ fkeylookup d = (r, d').
Proof.
  intros Hacyclic table where_ fkeylookup d Hd.
  pose proof (query_settles I rank Hacyclic (S (rank table)) table where_ fkeylookup
                (Nat.lt_succ_diag_r _) d Hd) as Hs.
  destruct (query (S (rank table)) table where_ fkeylookup d) as [r d'] eqn:Hq.
  exists r, d'. split.
  - intros ->. exact Hs.
  - intros fuel Hfuel.
    replace fuel with ((fuel - S (rank table)) + S (rank table)) by lia.
    rewrite query_deeper_add; [assumption|].
    rewrite Hq. simpl. intros ->. exact Hs.
Qed.

(** ** MiniSQL *)

Module MiniSQLFacts.
Import MiniSQL.

Lemma strip_append p s : strip p (p ++ s) = Some s.
Proof. induction p as [|a p IH]; simpl; [reflexivity|]. now rewrite Ascii.eqb_refl. Qed.

Lemma split_at_fst_append c s u :
  fst (split_at c (s ++ String c u)) = fst (split_at c s).
Proof.
  induction s as [|a s IH]; simpl.
  - now rewrite Ascii.eqb_refl.
  - destruct (Ascii.eqb a c); [reflexivity|].
    destruct (split_at c (s ++ String c u)), (split_at c s). simpl in *. congruence.
Qed.

Lemma split_at_lacks c s u :
  lacks c s = true -> split_at c (s ++ String c u) = (s, Some u).
Proof.
  induction s as [|a s IH]; simpl; intros H.
  - now rewrite Ascii.eqb_refl.
  - apply andb_true_iff in H. destruct H as [Ha Hs].
    apply negb_true_iff in Ha. rewrite Ha, (IH Hs). reflexivity.
Qed.

Lemma parse_int_decimal n : parse_int (decimal n) = Some n.
Proof.
  unfold parse_int, decimal. rewrite NilZero.isi.
  - simpl. now rewrite DecimalZ.of_to.
  - destruct n; simpl; try discriminate.
    intros [= H]. now apply DecimalPos.Unsigned.to_uint_nonnil in H.
  - destruct n; simpl; try discriminate.
    intros [= H]. now apply DecimalPos.Unsigned.to_uint_nonnil in H.
Qed.

(** A select leaves the database as it is. *)
Lemma run_select_stmt (d : db) t w :
  execute (select_stmt t w) d = (run_select d (t ++ " " ++ w), d).
Proof. reflexivity. Qed.

(** The cursor of a select describes the columns of the table named before
    the first blank. *)
Lemma run_select_description (d : db) text cursor :
  run_select d text = Ok cursor ->
  exists tb, find_table d (fst (split_at " " text)) = Some tb /\
             description cursor = map fst (columns tb).
Proof.
  unfold run_select, error. destruct (split_at " " text) as [name rest]. cbn [fst].
  destruct rest as [rest|]; [|discriminate].
  destruct (find_table d name) as [tb|]; [|destruct rest; discriminate].
  intros H. exists tb. split; [reflexivity|].
  destruct rest as [|a rest]; [now injection H as <-|].
  destruct (strip "where id = " (String a rest)) as [k|]; [|discriminate].
  destruct (parse_int k) as [n|]; [|discriminate].
  destruct (column_index (columns tb) "id") as [i|]; [|discriminate].
  now injection H as <-.
Qed.

End MiniSQLFacts.

(** The tables of the scenario are acyclic, with or without a department
    for Ann. *)
Lemma company_acyclic (rows_p rows_d : list (list value)) :
  let d0 := [MiniSQL.mkTable "people" (MiniSQL.columns people) rows_p;
             MiniSQL.mkTable "department" (MiniSQL.columns department) rows_d] in
  forall t w d, d = d0 ->
    match execute (select_stmt t w) d with
    | (Ok cursor, d') =>
        d' = d0 /\
        forall name, In name (description cursor) -> is_fkey true name = true ->
                     company_rank (slice_drop_last 3 name) < company_rank t
    | (Raise _, _) => True
    | (Diverges, _) => False
    end.
Proof.
  intros d0 t w d ->. rewrite MiniSQLFacts.run_select_stmt.
  destruct (MiniSQL.run_select d0 (t ++ " " ++ w)) as [cursor|e|] eqn:Hsel;
    [|exact Logic.I|].
  - split; [reflexivity|].
    apply MiniSQLFacts.run_select_description in Hsel.
    destruct Hsel as (tb & Hfind & ->).
    change (t ++ " " ++ w) with (t ++ String " " w) in Hfind.
    rewrite MiniSQLFacts.split_at_fst_append in Hfind.
    unfold company_rank. cbn [MiniSQL.find_table d0 MiniSQL.tname] in Hfind.
    destruct (String.eqb_spec "people" (fst (MiniSQL.split_at " " t))) as [<-|_].
    + injection Hfind as <-. simpl.
      intros name [<-|[<-|[<-|[]]]] Hfk; vm_compute in Hfk; try discriminate Hfk.
      vm_compute. lia.
    + destruct (String.eqb_spec "department" (fst (MiniSQL.split_at " " t))) as [<-|_];
        [|discriminate].
      injection Hfind as <-. simpl.
      intros name [<-|[<-|[]]] Hfk; vm_compute in Hfk; discriminate Hfk.
  - unfold MiniSQL.run_select, MiniSQL.error in Hsel.
    destruct (MiniSQL.split_at " " (t ++ " " ++ w)) as [name [rest|]];
      [|discriminate].
    destruct (MiniSQL.find_table d0 name); [|destruct rest; discriminate].
    destruct rest; [discriminate|].
    destruct (MiniSQL.strip _ _); [|discriminate].
    destruct (MiniSQL.parse_int _); [|discriminate].
    destruct (MiniSQL.column_index _ _); discriminate.
Qed.

Lemma query_terminates_when_acyclic_witness :
  exists r d', r <> Diverges /\
    forall fuel, company_rank "people" < fuel ->
      query fuel "people" "id = 5" true company = (r, d').
Proof.
  apply (query_terminates_when_acyclic (fun d => d = company) company_rank).
  - intros t w d Hd.
    exact (company_acyclic [[VInt 5; VStr "Ann"; VInt 1]] [[VInt 1; VStr "Eng"]] t w d Hd).
  - reflexivity.
Defined.

(** C9, as stated, fails on acyclic tables: with a null in the foreign key
    column the query raises at every depth, and no list is returned. *)
Lemma acyclic_query_raises :
  (forall t w d, d = company_null ->
     match execute (select_stmt t w) d with
     | (Ok cursor, d') =>
         d' = company_null /\
         forall name, In name (description cursor) -> is_fkey true name = true ->
                      company_rank (slice_drop_last 3 name) < company_rank t
     | (Raise _, _) => True
     | (Diverges, _) => False
     end) /\
  (forall fuel, query (S fuel) "people" "" true company_null
                = (Raise TypeError, company_null)) /\
  ~ (exists fuel objs d', query fuel "people" "" true company_null = (Ok objs, d')).
Proof.
  split; [|split].
  - intros t w d Hd.
    exact (company_acyclic [[VInt 5; VStr "Ann"; VNone]] [[VInt 1; VStr "Eng"]] t w d Hd).
  - intros fuel. reflexivity.
  - intros (fuel & objs & d' & H). destruct fuel; discriminate H.
Qed.

(** C2. On the tables of the scenario, [query(db, 'people', 'id = 5')]
    returns one Record, with [id] 5, [name] 'Ann', and for [department_id]
    a nested Record with [id] 1 and [name] 'Eng'; any depth of at least two
    suffices, and the database is left as it was. *)
Theorem query_scenario :
  forall fuel,
  exists r dep,
    query (S (S fuel)) "people" "id = 5" true company = (Ok [r], company) /\
    getattr r "id" = Some (VInt 5) /\
    getattr r "name" = Some (VStr "Ann") /\
    getattr r "department_id" = Some (VObj dep) /\
    getattr dep "id" = Some (VInt 1) /\
    getattr dep "name" = Some (VStr "Eng").
Proof.
  intros fuel. exists ann, [("id", VInt 1); ("name", VStr "Eng")].
  repeat split; reflexivity.
Qed.

Section NullForeignKey.

Context {DB : Type} {conn : Connection DB}.

(** C10. A null in a column that follows the foreign key convention, with
    lookup enabled: the row mapper raises TypeError at that column, from
    the integer conversion of [None], before any nested query is made; and
    [orm] on a cursor holding such a row never returns a list, so the null
    is not turned into the [None] marker. *)
Theorem null_foreign_key_raises cursor row i name :
  In row (fetchall cursor) ->
  nth_error (description cursor) i = Some name ->
  nth_error row i = Some VNone ->
  is_fkey true name = true ->
  (forall (q : string -> string -> M DB (list Pormo)) obj d,
      orm_col q true (description cursor) row i obj d = (Raise TypeError, d)) /\
  (forall fuel table d objs d',
      orm fuel table cursor true d <> (Ok objs, d')).
Proof.
  intros Hrow Hname Hval Hfk.
  assert (Hcol : forall (q : string -> string -> M DB (list Pormo)) obj d,
             orm_col q true (description cursor) row i obj d = (Raise TypeError, d)).
  { intros q obj d. now apply orm_col_null with (name := name). }
  split; [exact Hcol|].
  intros fuel table d objs d' Horm. unfold orm, orm_with in Horm.
  destruct (for_each_Ok_In _ _ _ _ _ _ _ _ Horm row Hrow) as (objs1 & d1 & objs2 & d2 & H).
  unfold orm_row, bind in H.
  destruct (for_each (seq 0 (List.length (description cursor))) _ new_Pormo d1)
    as [[obj| |] d3] eqn:Hcols; try discriminate.
  assert (Hi : In i (seq 0 (List.length (description cursor)))).
  { apply in_seq. split; [lia|]. simpl. apply nth_error_Some. congruence. }
  destruct (for_each_Ok_In _ _ _ _ _ _ _ _ Hcols i Hi) as (o1 & e1 & o2 & e2 & H').
  rewrite Hcol in H'. discriminate.
Qed.

End NullForeignKey.

Lemma null_foreign_key_raises_witness :
  (forall (q : string -> string -> M MiniSQL.db (list Pormo)) obj d,
      orm_col q true ["id"; "name"; "department_id"] [VInt 5; VStr "Ann"; VNone] 2 obj d
      = (Raise TypeError, d)) /\
  (forall fuel table d objs d',
      orm fuel table
          (mkCursor ["id"; "name"; "department_id"] [[VInt 5; VStr "Ann"; VNone]])
          true d <> (Ok objs, d')).
Proof.
  apply (null_foreign_key_raises (DB := MiniSQL.db)
           (mkCursor ["id"; "name"; "department_id"] [[VInt 5; VStr "Ann"; VNone]])
           [VInt 5; VStr "Ann"; VNone] 2 "department_id").
  - simpl. now left.
  - reflexivity.
  - reflexivity.
  - reflexivity.
Defined.

Lemma foreign_key_trigger_witness :
  (fkey_convention true "department_id" ->
   exists ref, "department_id" = ref ++ "_id" /\ ref <> "" /\
     orm_col (fun t w => query 1 t w true) true ["id"; "name"; "department_id"]
             [VInt 5; VStr "Ann"; VInt 1] 2 new_Pormo company =
     (w <- lift (fmt_i (VInt 1)) ;;
      r <- query 1 ref ("id = " ++ w) true ;;
      ret (setattr new_Pormo "department_id"
             (match r with o :: _ => VObj o | [] => VNone end))) company) /\
  (~ fkey_convention true "department_id" ->
   orm_col (fun t w => query 1 t w true) true ["id"; "name"; "department_id"]
           [VInt 5; VStr "Ann"; VInt 1] 2 new_Pormo company
   = (Ok (setattr new_Pormo "department_id" (VInt 1)), company)) /\
  ("department_id" = "id" \/ "department_id" = "_id" \/
   ~ (exists ref, "department_id" = ref ++ "_id") ->
   ~ fkey_convention true "department_id").
Proof.
  apply (foreign_key_trigger (fun t w => query 1 t w true) true
           ["id"; "name"; "department_id"] [VInt 5; VStr "Ann"; VInt 1] 2
           "department_id" (VInt 1) new_Pormo company).
  - reflexivity.
  - reflexivity.
Defined.

(** ** Attributes *)

Lemma getattr_setattr_same obj name v : getattr (setattr obj name v) name = Some v.
Proof.
  induction obj as [|[k w] obj IH]; simpl.
  - now rewrite String.eqb_refl.
  - destruct (String.eqb_spec k name) as [->|Hk]; simpl.
    + now rewrite String.eqb_refl.
    + destruct (String.eqb_spec k name); [contradiction|assumption].
Qed.

Lemma getattr_setattr_other obj name name' v :
  name <> name' -> getattr (setattr obj name v) name' = getattr obj name'.
Proof.
  intros Hne. induction obj as [|[k w] obj IH]; simpl.
  - destruct (String.eqb_spec name name'); [contradiction|reflexivity].
  - destruct (String.eqb_spec k name) as [->|Hk]; simpl.
    + destruct (String.eqb_spec name name'); [contradiction|reflexivity].
    + now rewrite IH.
Qed.

(** ** The row mapper on a connection that selects keep in a set of states *)

Section Keeps.

Context {DB : Type} {conn : Connection DB}.

Variable I : DB -> Prop.

Lemma keeps_ret A (a : A) : keeps I (ret a).
Proof. intros d Hd a' d' [= _ <-]. exact Hd. Qed.

Lemma keeps_raise A e : keeps I (raise e : M DB A).
Proof. intros d Hd a' d' [=]. Qed.

Lemma keeps_lift A (r : outcome A) : keeps I (lift r).
Proof. intros d Hd a' d' [= _ <-]. exact Hd. Qed.

Lemma keeps_bind A B (c : M DB A) (k : A -> M DB B) :
  keeps I c -> (forall a, keeps I (k a)) -> keeps I (bind c k).
Proof.
  intros Hc Hk d Hd b d' H. unfold bind in H.
  destruct (c d) as [[a|e|] d1] eqn:Hcd; try discriminate.
  exact (Hk a d1 (Hc d Hd a d1 Hcd) b d' H).
Qed.

Lemma keeps_index A (l : list A) i : keeps I (index l i).
Proof. unfold index. destruct (nth_error l i); [apply keeps_ret|apply keeps_raise]. Qed.

Lemma keeps_for_each A S (l : list A) (body : A -> S -> M DB S) :
  (forall x s, keeps I (body x s)) -> forall s, keeps I (for_each l body s).
Proof.
  intros Hbody. induction l as [|x l IH]; intros s; simpl.
  - apply keeps_ret.
  - apply keeps_bind; [apply Hbody|apply IH].
Qed.

Lemma keeps_orm_col (q : string -> string -> M DB (list Pormo)) fkeylookup rownames row i obj :
  (forall t w, keeps I (q t w)) -> keeps I (orm_col q fkeylookup rownames row i obj).
Proof.
  intros Hq. unfold orm_col.
  apply keeps_bind; [apply keeps_index|]. intros name.
  apply keeps_bind; [apply keeps_index|]. intros val.
  destruct (is_fkey fkeylookup name); [|apply keeps_ret].
  apply keeps_bind; [apply keeps_lift|]. intros w.
  apply keeps_bind; [apply Hq|]. intros [|o r]; apply keeps_ret.
Qed.

Lemma keeps_orm_with (q : string -> string -> M DB (list Pormo)) table cursor fkeylookup :
  (forall t w, keeps I (q t w)) -> keeps I (orm_with q table cursor fkeylookup).
Proof.
  intros Hq. unfold orm_with. apply keeps_for_each. intros row objs.
  unfold orm_row. apply keeps_bind; [|intros; apply keeps_ret].
  apply keeps_for_each. intros i obj. now apply keeps_orm_col.
Qed.

Hypothesis select_keeps : forall t w, keeps I (execute (select_stmt t w)).

Lemma keeps_query fuel : forall table where_ fkeylookup,
  keeps I (query fuel table where_ fkeylookup).
Proof.
  induction fuel as [|fuel IH]; intros table where_ fkeylookup.
  - intros d Hd a d' [=].
  - change (query (S fuel) table where_ fkeylookup)
      with (cursor <- execute (select_stmt table
              (if negb (String.length where_ =? 0)%nat then "where " ++ where_ else where_)) ;;
            orm_with (fun t w => query fuel t w true) table cursor fkeylookup).
    apply keeps_bind; [apply select_keeps|]. intros cursor.
    apply keeps_orm_with. intros t w. apply IH.
Qed.

(** The columns loop, attribute by attribute. *)
Lemma columns_loop (q : string -> string -> M DB (list Pormo)) fkeylookup rownames row :
  (forall t w, keeps I (q t w)) ->
  NoDup rownames ->
  forall n a obj d obj' d',
    I d ->
    for_each (seq a n) (orm_col q fkeylookup rownames row) obj d = (Ok obj', d') ->
    (forall c name, a <= c < a + n -> nth_error rownames c = Some name ->
       exists val v d1 d2,
         nth_error row c = Some val /\ I d1 /\
         resolve q fkeylookup name val d1 = (Ok v, d2) /\
         getattr obj' name = Some v) /\
    (forall name, (forall c, a <= c < a + n -> nth_error rownames c <> Some name) ->
       getattr obj' name = getattr obj name).
Proof.
  intros Hq Hnodup. induction n as [|n IH]; intros a obj d obj' d' Hd H.
  - simpl in H. injection H as <- <-. split; [intros; lia|reflexivity].
  - simpl in H. unfold bind in H.
    destruct (orm_col q fkeylookup rownames row a obj d) as [[obj1| |] d1] eqn:Hcol;
      try discriminate.
    pose proof (keeps_orm_col q fkeylookup rownames row a obj Hq d Hd obj1 d1 Hcol) as Hd1.
    destruct (IH (S a) obj1 d1 obj' d' Hd1 H) as [IHin IHout].
    (* what the column at [a] did *)
    assert (Ha : exists name val v,
               nth_error rownames a = Some name /\ nth_error row a = Some val /\
               resolve q fkeylookup name val d = (Ok v, d1) /\
               obj1 = setattr obj name v).
    { destruct (nth_error rownames a) as [name|] eqn:Hname.
      2:{ unfold orm_col, index, bind in Hcol. rewrite Hname in Hcol. discriminate. }
      destruct (nth_error row a) as [val|] eqn:Hval.
      2:{ unfold orm_col, index, bind in Hcol. rewrite Hname, Hval in Hcol.
          discriminate. }
      rewrite (orm_col_resolve q fkeylookup rownames row a name val obj d Hname Hval)
        in Hcol.
      unfold bind in Hcol.
      destruct (resolve q fkeylookup name val d) as [[v| |] d2] eqn:Hres;
        try discriminate.
      injection Hcol as <- <-. exists name, val, v. auto. }
    destruct Ha as (name_a & val_a & v_a & Hname_a & Hval_a & Hres_a & ->).
    split.
    + intros c name Hc Hname.
      destruct (Nat.eq_dec c a) as [->|Hne].
      * assert (name = name_a) by congruence. subst name.
        exists val_a, v_a, d, d1. repeat split; try assumption.
        rewrite IHout.
        -- apply getattr_setattr_same.
        -- intros c Hc' Hname'.
           assert (c = a); [|lia].
           apply (proj1 (NoDup_nth_error rownames) Hnodup); [|congruence].
           apply nth_error_Some. congruence.
      * apply IHin; [lia|assumption].
    + intros name Hout. rewrite IHout by (intros c Hc; apply Hout; lia).
      apply getattr_setattr_other. intros ->. apply (Hout a); [lia|assumption].
Qed.

(** The rows loop: one Record is appended for each row, built by the
    columns loop from an empty Record. *)
Lemma rows_loop (q : string -> string -> M DB (list Pormo)) fkeylookup rownames :
  (forall t w, keeps I (q t w)) ->
  forall rows objs0 d objs d',
    I d ->
    for_each rows (orm_row q fkeylookup rownames) objs0 d = (Ok objs, d') ->
    exists news,
      objs = (objs0 ++ news)%list /\
      List.length news = List.length rows /\
      forall r row, nth_error rows r = Some row ->
        exists obj d1 d2,
          nth_error news r = Some obj /\ I d1 /\
          for_each (seq 0 (List.length rownames))
                   (orm_col q fkeylookup rownames row) new_Pormo d1 = (Ok obj, d2).
Proof.
  intros Hq. induction rows as [|row0 rows IH]; intros objs0 d objs d' Hd H.
  - simpl in H. injection H as <- <-. exists []. rewrite app_nil_r.
    repeat split. intros [|r] row; discriminate.
  - simpl in H. unfold bind at 1 in H.
    destruct (orm_row q fkeylookup rownames row0 objs0 d) as [[objs1| |] d1] eqn:Hrow;
      try discriminate.
    assert (Hd1 : I d1).
    { revert Hrow. unfold orm_row. generalize d Hd objs1 d1.
      change (keeps I (obj <- for_each (seq 0 (List.length rownames))
                               (orm_col q fkeylookup rownames row0) new_Pormo ;;
                       ret (objs0 ++ [obj])%list)).
      apply keeps_bind; [|intros; apply keeps_ret].
      apply keeps_for_each. intros i obj. now apply keeps_orm_col. }
    unfold orm_row, bind in Hrow.
    destruct (for_each (seq 0 (List.length rownames)) _ new_Pormo d)
      as [[obj0| |] d2] eqn:Hcols; try discriminate.
    injection Hrow as <- <-.
    destruct (IH _ _ _ _ Hd1 H) as (news & -> & Hlen & Hrows).
    exists (obj0 :: news). rewrite <- app_assoc. split; [reflexivity|].
    split; [simpl; congruence|].
    intros [|r] row Hr.
    + injection Hr as <-. exists obj0, d, d2. auto.
    + apply Hrows. exact Hr.
Qed.

End Keeps.

(** ** The row mapper returns *)

Section Returns.

Context {DB : Type} {conn : Connection DB}.

Variable I : DB -> Prop.
Variable q : string -> string -> M DB (list Pormo).
Variable fkeylookup : bool.

Hypothesis q_keeps : forall t w, keeps I (q t w).

Lemma orm_col_returns rownames row c obj (d : DB) :
  answered I q fkeylookup rownames row ->
  c < List.length rownames ->
  I d ->
  exists obj' d',
    orm_col q fkeylookup rownames row c obj d = (Ok obj', d') /\ I d'.
Proof.
  intros [Hlen Hfk] Hc Hd.
  destruct (nth_error rownames c) as [name|] eqn:Hname;
    [|apply nth_error_None in Hname; lia].
  destruct (nth_error row c) as [val|] eqn:Hval;
    [|apply nth_error_None in Hval; lia].
  rewrite (orm_col_resolve q fkeylookup rownames row c name val obj d Hname Hval).
  unfold bind, resolve.
  destruct (is_fkey fkeylookup name) eqn:Hfkey.
  - destruct (Hfk c name val Hname Hval Hfkey) as (k & -> & Hret).
    destruct (Hret d Hd) as (objs & d' & Hq).
    unfold bind, lift. cbn [fmt_i]. rewrite Hq.
    eexists. exists d'. split; [reflexivity|].
    exact (q_keeps _ _ d Hd objs d' Hq).
  - eexists. exists d. split; [reflexivity|assumption].
Qed.

Lemma columns_returns rownames row :
  answered I q fkeylookup rownames row ->
  forall n a obj (d : DB),
    a + n <= List.length rownames -> I d ->
    exists obj' d',
      for_each (seq a n) (orm_col q fkeylookup rownames row) obj d = (Ok obj', d') /\
      I d'.
Proof.
  intros Hans. induction n as [|n IH]; intros a obj d Hn Hd.
  - exists obj, d. split; [reflexivity|assumption].
  - destruct (orm_col_returns rownames row a obj d Hans) as (obj1 & d1 & Hcol & Hd1);
      [lia|assumption|].
    destruct (IH (S a) obj1 d1) as (obj' & d' & Hrest & Hd'); [lia|assumption|].
    exists obj', d'. split; [|assumption].
    cbn [seq for_each]. unfold bind. now rewrite Hcol.
Qed.

Lemma rows_returns rownames rows :
  Forall (answered I q fkeylookup rownames) rows ->
  forall objs (d : DB), I d ->
    exists objs' d',
      for_each rows (orm_row q fkeylookup rownames) objs d = (Ok objs', d') /\ I d'.
Proof.
  induction 1 as [|row rows Hrow _ IH]; intros objs d Hd.
  - exists objs, d. split; [reflexivity|assumption].
  - destruct (columns_returns rownames row Hrow (List.length rownames) 0 new_Pormo d)
      as (obj & d1 & Hcols & Hd1); [lia|assumption|].
    destruct (IH (objs ++ [obj])%list d1 Hd1) as (objs' & d' & Hrest & Hd').
    exists objs', d'. split; [|assumption].
    cbn [for_each]. unfold bind at 1. unfold orm_row at 1. unfold bind at 1.
    rewrite Hcols. exact Hrest.
Qed.

(** [orm] returns on a cursor whose rows are all answered. *)
Lemma orm_with_returns table cursor :
  Forall (answered I q fkeylookup (description cursor)) (fetchall cursor) ->
  forall d : DB, I d ->
    exists objs d', orm_with q table cursor fkeylookup d = (Ok objs, d') /\ I d'.
Proof. intros Hall d Hd. unfold orm_with. now apply rows_returns. Qed.

End Returns.

(** ** Dangling references *)

Section Dangling.

Context {DB : Type} {conn : Connection DB}.

(** A nested query whose select finds no row returns the empty list. *)
Lemma query_no_rows fuel ref k fkeylookup cursor (d d1 : DB) :
  execute (probe ref k) d = (Ok cursor, d1) ->
  fetchall cursor = [] ->
  query (S fuel) ref ("id = " ++ decimal k) fkeylookup d = (Ok [], d1).
Proof.
  intros Hex Hrows.
  change (query (S fuel) ref ("id = " ++ decimal k) fkeylookup d)
    with ((cursor <- execute (probe ref k) ;;
           orm_with (fun t w => query fuel t w true) ref cursor fkeylookup) d).
  unfold bind. rewrite Hex. unfold orm_with. now rewrite Hrows.
Qed.

Lemma is_fkey_ref_id ref : ref <> "" -> is_fkey true (ref ++ "_id") = true.
Proof.
  intros Href. apply is_fkey_convention. split; [reflexivity|]. split.
  - rewrite length_append. destruct ref; [contradiction|simpl; lia].
  - now exists ref.
Qed.

Variable I : DB -> Prop.

Lemma resolve_dangling fuel ref k (d : DB) :
  ref <> "" ->
  (forall d0, I d0 -> exists cur0 d1,
      execute (probe ref k) d0 = (Ok cur0, d1) /\ fetchall cur0 = []) ->
  I d ->
  exists d1,
    resolve (fun t w => query (S fuel) t w true) true (ref ++ "_id") (VInt k) d
    = (Ok VNone, d1).
Proof.
  intros Href Hdangling Hd. destruct (Hdangling d Hd) as (cur0 & d1 & Hex & Hrows).
  exists d1. unfold resolve. rewrite (is_fkey_ref_id ref Href), is_fkey_ref.
  unfold bind, lift. cbn [fmt_i].
  now rewrite (query_no_rows fuel ref k true cur0 d d1 Hex Hrows).
Qed.

(** C7. A column [<ref>_id] whose value matches no row of [<ref>] (the
    select on [<ref>] answers with no rows), on a cursor whose rows each
    have a value for every column and hold, in every column that is looked
    up, an integer whose look-up returns: the row mapper sets the attribute
    to [None] without raising, and [orm] returns a list that has one Record
    for every fetched row, in which the Record of that row carries [None]
    for the column. *)
Theorem dangling_reference_is_None fuel table cursor r row c ref k :
  (forall t w, keeps I (execute (select_stmt t w))) ->
  NoDup (description cursor) ->
  Forall (answered I (fun t w => query (S fuel) t w true) true (description cursor))
         (fetchall cursor) ->
  nth_error (fetchall cursor) r = Some row ->
  nth_error (description cursor) c = Some (ref ++ "_id") ->
  ref <> "" ->
  nth_error row c = Some (VInt k) ->
  (forall d0, I d0 -> exists cur0 d1,
      execute (probe ref k) d0 = (Ok cur0, d1) /\ fetchall cur0 = []) ->
  (forall obj d, I d -> exists d1,
      orm_col (fun t w => query (S fuel) t w true) true (description cursor) row c obj d
      = (Ok (setattr obj (ref ++ "_id") VNone), d1)) /\
  (forall d, I d -> exists objs d',
      orm (S fuel) table cursor true d = (Ok objs, d') /\
      List.length objs = List.length (fetchall cursor) /\
      exists obj, nth_error objs r = Some obj /\
                  getattr obj (ref ++ "_id") = Some VNone).
Proof.
  intros Hkeeps Hnodup Hanswered Hrow Hname Href Hval Hdangling. split.
  - intros obj d Hd.
    destruct (resolve_dangling fuel ref k d Href Hdangling Hd) as [d1 Hres].
    exists d1. rewrite (orm_col_resolve _ _ _ _ _ (ref ++ "_id") (VInt k)) by assumption.
    unfold bind. now rewrite Hres.
  - intros d Hd.
    assert (Hq : forall t w, keeps I (query (S fuel) t w true)).
    { intros t w. now apply keeps_query. }
    destruct (orm_with_returns I _ true Hq table cursor Hanswered d Hd)
      as (objs & d' & Horm & _).
    exists objs, d'. split; [exact Horm|].
    unfold orm, orm_with in Horm.
    destruct (rows_loop I _ true (description cursor) Hq _ _ _ _ _ Hd Horm)
      as (news & -> & Hlen & Hrows).
    split; [exact Hlen|].
    destruct (Hrows r row Hrow) as (obj & d1 & d2 & Hobj & Hd1 & Hcols).
    exists obj. split; [exact Hobj|].
    destruct (columns_loop I _ true (description cursor) row Hq Hnodup _ _ _ _ _ _ Hd1 Hcols)
      as [Hin _].
    destruct (Hin c (ref ++ "_id")) as (val & v & e1 & e2 & Hval' & He1 & Hres & Hget).
    + split; [lia|]. simpl. apply nth_error_Some. congruence.
    + assumption.
    + rewrite Hget. f_equal.
      assert (val = VInt k) by congruence. subst val.
      destruct (resolve_dangling fuel ref k e1 Href Hdangling He1) as [e3 Hres'].
      congruence.
Qed.

End Dangling.

Example query_dangling :
  forall fuel,
    query (S (S fuel)) "people" "" true company_dangling =
    (Ok [[("id", VInt 5); ("name", VStr "Ann"); ("department_id", VNone)]],
     company_dangling).
Proof. intros fuel. reflexivity. Qed.

Lemma dangling_reference_is_None_witness :
  (forall obj d, d = company_dangling -> exists d1,
      orm_col (fun t w => query 1 t w true) true
              (description (mkCursor ["id"; "name"; "department_id"]
                                     [[VInt 5; VStr "Ann"; VInt 9]]))
              [VInt 5; VStr "Ann"; VInt 9] 2 obj d
      = (Ok (setattr obj ("department" ++ "_id") VNone), d1)) /\
  (forall d, d = company_dangling -> exists objs d',
      orm 1 "people"
          (mkCursor ["id"; "name"; "department_id"] [[VInt 5; VStr "Ann"; VInt 9]])
          true d = (Ok objs, d') /\
      List.length objs =
      List.length (fetchall (mkCursor ["id"; "name"; "department_id"]
                                      [[VInt 5; VStr "Ann"; VInt 9]])) /\
      exists obj, nth_error objs 0 = Some obj /\
                  getattr obj ("department" ++ "_id") = Some VNone).
Proof.
  apply (dangling_reference_is_None (fun d => d = company_dangling) 0 "people"
           (mkCursor ["id"; "name"; "department_id"] [[VInt 5; VStr "Ann"; VInt 9]])
           0 [VInt 5; VStr "Ann"; VInt 9] 2 "department" 9).
  - intros t w d -> a d' H. rewrite MiniSQLFacts.run_select_stmt in H. congruence.
  - simpl. repeat constructor; simpl; intuition discriminate.
  - repeat constructor.
    intros [|[|[|c]]] name val Hname Hval Hfk; simpl in Hname, Hval;
      try (injection Hname as <-; discriminate Hfk);
      [|destruct c; discriminate Hname].
    injection Hname as <-. injection Hval as <-. exists 9%Z. split; [reflexivity|].
    intros d0 ->. exists [], company_dangling. reflexivity.
  - reflexivity.
  - reflexivity.
  - discriminate.
  - reflexivity.
  - intros d0 ->. exists (mkCursor ["id"; "name"] []), company_dangling.
    split; reflexivity.
Defined.

(** ** MiniSQL on the statements of porm *)



Module MiniSQLStatements.
Import MiniSQL MiniSQLFacts.

(** Names *)




(** Numbers *)








(** The set clause *)







(** A select by [id] on a table the database holds. *)
Lemma run_select_id (d : db) t tb j n :
  lacks " " t = true ->
  find_table d t = Some tb ->
  column_index (columns tb) "id" = Some j ->
  execute (probe t n) d =
  (Ok (mkCursor (map fst (columns tb)) (filter (id_is j n) (rows tb))), d).
Proof.
  intros Ht Hfind Hid.
  change (execute (probe t n) d)
    with (run_select d (t ++ String " " ("where id = " ++ decimal n)), d).
  unfold run_select. rewrite (split_at_lacks " " t _ Ht), Hfind.
  rewrite (strip_append "where id = " (decimal n)). cbn [append].
  now rewrite parse_int_decimal, Hid.
Qed.






Lemma column_index_nth cols name i :
  column_index cols name = Some i ->
  exists aff, nth_error cols i = Some (name, aff).
Proof.
  revert i. induction cols as [|[c aff] cols IH]; intros i; simpl; [discriminate|].
  destruct (String.eqb_spec c name) as [->|_].
  - intros [= <-]. now exists aff.
  - destruct (column_index cols name) as [k|]; [|discriminate].
    intros [= <-]. now apply IH.
Qed.


End MiniSQLStatements.

(** ** Queries by identifier on MiniSQL *)

Section ById.
Import MiniSQL MiniSQLFacts MiniSQLStatements.

Variable d : db.

Lemma select_keeps_db t w : keeps (fun d' => d' = d) (execute (select_stmt t w)).
Proof. intros d0 -> a d' H. rewrite run_select_stmt in H. congruence. Qed.

Lemma query_keeps_db fuel t w fkeylookup :
  keeps (fun d' => d' = d) (query fuel t w fkeylookup).
Proof. apply keeps_query. apply select_keeps_db. Qed.

(** What [query(db, t, 'id = n')] returns: one Record for each row with
    that identifier, holding for every column the resolved value. *)
Lemma query_by_id fuel t tb j n fkeylookup objs d' :
  lacks " " t = true ->
  find_table d t = Some tb ->
  column_index (columns tb) "id" = Some j ->
  NoDup (map fst (columns tb)) ->
  query (S fuel) t ("id = " ++ decimal n) fkeylookup d = (Ok objs, d') ->
  d' = d /\
  List.length objs = List.length (filter (id_is j n) (rows tb)) /\
  forall r row, nth_error (filter (id_is j n) (rows tb)) r = Some row ->
    exists obj,
      nth_error objs r = Some obj /\
      (forall c name, nth_error (map fst (columns tb)) c = Some name ->
         exists val v d2,
           nth_error row c = Some val /\
           resolve (fun t w => query fuel t w true) fkeylookup name val d = (Ok v, d2) /\
           getattr obj name = Some v) /\
      (forall name, ~ In name (map fst (columns tb)) -> getattr obj name = None).
Proof.
  intros Ht Hfind Hid Hnodup Hq.
  split; [exact (query_keeps_db (S fuel) t _ fkeylookup d eq_refl objs d' Hq)|].
  change (query (S fuel) t ("id = " ++ decimal n) fkeylookup d)
    with ((cursor <- execute (probe t n) ;;
           orm_with (fun t w => query fuel t w true) t cursor fkeylookup) d) in Hq.
  unfold bind in Hq. rewrite (run_select_id d t tb j n Ht Hfind Hid) in Hq.
  unfold orm_with in Hq. cbn [fetchall description] in Hq.
  assert (Hkeeps : forall t w, keeps (fun d' => d' = d) (query fuel t w true)).
  { intros t' w'. apply query_keeps_db. }
  destruct (rows_loop (fun d' => d' = d) _ fkeylookup (map fst (columns tb)) Hkeeps
              _ _ _ _ _ eq_refl Hq) as (news & -> & Hlen & Hrows).
  split; [exact Hlen|].
  intros r row Hr. destruct (Hrows r row Hr) as (obj & d1 & d2 & Hobj & -> & Hcols).
  exists obj. split; [exact Hobj|].
  destruct (columns_loop (fun d' => d' = d) _ fkeylookup (map fst (columns tb)) row
              Hkeeps Hnodup _ _ _ _ _ _ eq_refl Hcols) as [Hin Hout].
  split.
  - intros c name Hname.
    destruct (Hin c name) as (val & v & e1 & e2 & Hval & -> & Hres & Hget);
      [split; [lia|simpl; apply nth_error_Some; congruence]|assumption|].
    exists val, v, e2. auto.
  - intros name Hname. rewrite Hout; [reflexivity|].
    intros c _ Hc. apply Hname. eapply nth_error_In. eassumption.
Qed.

Lemma id_is_nth j n row : id_is j n row = true -> nth_error row j = Some (VInt n).
Proof.
  unfold id_is. destruct (nth_error row j) as [[m| | |]|]; try discriminate.
  intros H. apply Z.eqb_eq in H. now subst.
Qed.

(** Every Record that a query by identifier returns carries that identifier. *)
Lemma query_by_id_id fuel t tb j n fkeylookup objs d' obj :
  lacks " " t = true ->
  find_table d t = Some tb ->
  column_index (columns tb) "id" = Some j ->
  NoDup (map fst (columns tb)) ->
  query (S fuel) t ("id = " ++ decimal n) fkeylookup d = (Ok objs, d') ->
  In obj objs ->
  getattr obj "id" = Some (VInt n).
Proof.
  intros Ht Hfind Hid Hnodup Hq Hin.
  destruct (query_by_id fuel t tb j n fkeylookup objs d' Ht Hfind Hid Hnodup Hq)
    as (_ & Hlen & Hrows).
  destruct (In_nth_error _ _ Hin) as [r Hr].
  destruct (nth_error (filter (id_is j n) (rows tb)) r) as [row|] eqn:Hrow.
  2:{ apply nth_error_None in Hrow. rewrite <- Hlen in Hrow.
      apply nth_error_None in Hrow. congruence. }
  destruct (Hrows r row Hrow) as (obj' & Hobj' & Hcols & _).
  assert (obj' = obj) by congruence. subst obj'.
  destruct (column_index_nth _ _ _ Hid) as [aff Hcol].
  destruct (Hcols j "id") as (val & v & d2 & Hval & Hres & Hget).
  { rewrite nth_error_map, Hcol. reflexivity. }
  apply nth_error_In, filter_In in Hrow. destruct Hrow as [_ Hrow].
  apply id_is_nth in Hrow. rewrite Hrow in Hval. injection Hval as <-.
  rewrite Hget. unfold resolve in Hres.
  replace (is_fkey fkeylookup "id") with false in Hres
    by (now destruct fkeylookup).
  now injection Hres as <- _.
Qed.

End ById.

(** ** Query, then save *)




Section RoundTrip.
Import MiniSQL MiniSQLFacts MiniSQLStatements.

Variable d : db.






End RoundTrip.



Example query_then_save_company : query_then_save company = (Ok tt, company).
Proof. vm_compute. reflexivity. Qed.

(** A table that refers to itself: the recursion does not end at any
    depth. *)
Example query_self_reference :
  forall fuel, query fuel "node" "id = 1" true looped = (Diverges, looped).
Proof.
  induction fuel as [|fuel IH]; [reflexivity|].
  change (query (S fuel) "node" "id = 1" true looped)
    with ((cursor <- execute (probe "node" 1) ;;
           orm_with (fun t w => query fuel t w true) "node" cursor true) looped).
  unfold bind at 1.
  rewrite (MiniSQLStatements.run_select_id looped "node" node 0 1 eq_refl eq_refl eq_refl).
  unfold orm_with, orm_row. cbn [fetchall description node MiniSQL.columns MiniSQL.rows
    map fst filter MiniSQL.id_is nth_error Z.eqb Pos.eqb List.length seq for_each].
  unfold bind at 1 2 3.
  rewrite (orm_col_raw _ true ["id"; "node_id"] [VInt 1; VInt 1] 0 "id" (VInt 1))
    by reflexivity.
  unfold bind at 1.
  rewrite (orm_col_lookup _ ["id"; "node_id"] [VInt 1; VInt 1] 1 "node" (VInt 1))
    by reflexivity.
  unfold bind at 1 2, lift. cbn [fmt_i].
  change ("id = " ++ decimal 1) with "id = 1". now rewrite IH.
Qed.

(** * Further properties of [save], [query] and [orm] *)

(** ** [save]: the identifier *)

Section SaveIdentifierFacts.

Context {DB : Type} {conn : Connection DB}.

Lemma save_no_id table (instance : Pormo) (d : DB) :
  getattr instance "id" = None ->
  save table instance d = (Raise AttributeError, d).
Proof.
  intros Hid. rewrite save_unfold. unfold bind, attribute. now rewrite Hid.
Qed.

Lemma save_bad_id table (instance : Pormo) v (d : DB) :
  getattr instance "id" = Some v ->
  (forall n, v <> VInt n) ->
  save table instance d = (Raise TypeError, d).
Proof.
  intros Hid Hv. rewrite save_unfold. unfold bind, attribute, lift. rewrite Hid.
  destruct v as [n|s| |o]; try reflexivity. now elim (Hv n).
Qed.

End SaveIdentifierFacts.

Section SaveIdentifier.

Context {DB : Type} {conn : Connection DB}.

(** X1. A Record without an [id] attribute: [save] raises AttributeError
    at its first line, and the connection is not used. *)
Theorem save_without_id table (instance : Pormo) (d : DB) tr :
  getattr instance "id" = None ->
  save table instance (mkTraced d tr) = (Raise AttributeError, mkTraced d tr).
Proof. intros Hid. now apply save_no_id. Qed.

(** X2. A Record whose [id] is not a number (text, [None] or a Record):
    it is not equal to [0], the probe cannot be formatted, and [save]
    raises TypeError before anything is sent. *)
Theorem save_id_not_a_number table (instance : Pormo) v (d : DB) tr :
  getattr instance "id" = Some v ->
  (forall n, v <> VInt n) ->
  save table instance (mkTraced d tr) = (Raise TypeError, mkTraced d tr).
Proof. intros Hid Hv. now apply save_bad_id with (v := v). Qed.


End SaveIdentifier.

(** ** [save]: errors of the connection *)

Section SaveErrors.

Context {DB : Type} {conn : Connection DB}.

(** X4. [save] has no handler: an exception raised by the probe comes out
    of [save] with nothing more sent, and an exception raised by the update
    comes out of [save] before the commit. *)
Theorem save_propagates_errors table (instance : Pormo) n (d : DB) tr :
  getattr instance "id" = Some (VInt n) -> n <> 0%Z ->
  (forall e d1,
      execute (probe table n) d = (Raise e, d1) ->
      save table instance (mkTraced d tr) =
      (Raise e, mkTraced d1 (tr ++ [Executed (probe table n)])%list)) /\
  (forall cursor d1,
      execute (probe table n) d = (Ok cursor, d1) ->
      fetchall cursor <> [] ->
      (forall f o, getattr instance f = Some (VObj o) ->
                   exists v, getattr o "id" = Some v) ->
      exists vs,
        Forall2 (flattened instance) (public_fields instance) vs /\
        forall e d2,
          execute (update_stmt table (public_fields instance) vs n) d1 = (Raise e, d2) ->
          save table instance (mkTraced d tr) =
          (Raise e,
           mkTraced d2
             (tr ++ [Executed (probe table n);
                     Executed (update_stmt table (public_fields instance) vs n)])%list)).
Proof.
  intros Hid Hn. split.
  - intros e d1 Hprobe.
    rewrite (save_id_nonzero table instance n (mkTraced d tr) Hid Hn).
    now rewrite traced_execute, Hprobe.
  - intros cursor d1 Hprobe Hrows Hnested.
    destruct (flat_all_fields instance (public_fields instance)) as (vs & Hflat & HF);
      [intros f Hf; now apply public_fields_In in Hf|assumption|].
    exists vs. split; [exact HF|]. intros e d2 Hupd.
    pose proof (save_known_id table instance n cursor vs d d1 tr Hid Hn Hprobe
                  Hrows Hflat) as Hsave.
    cbv zeta in Hsave. now rewrite Hsave, Hupd.
Qed.

End SaveErrors.

(** ** [save]: the fields of the update *)

Lemma name_le_trans a b c : name_le a b -> name_le b c -> name_le a c.
Proof.
  unfold name_le, String.leb. intros Hab Hbc.
  destruct (String.compare a b) eqn:Eab; try discriminate;
    destruct (String.compare b c) eqn:Ebc; try discriminate.
  - apply String.compare_eq_iff in Eab. subst a. now rewrite Ebc.
  - apply String.compare_eq_iff in Eab. subst a. now rewrite Ebc.
  - apply String.compare_eq_iff in Ebc. subst c. now rewrite Eab.
  - apply OrderedTypeEx.String_as_OT.cmp_lt in Eab, Ebc.
    pose proof (OrderedTypeEx.String_as_OT.lt_trans _ _ _ Eab Ebc) as Hac.
    apply OrderedTypeEx.String_as_OT.cmp_lt in Hac.
    unfold OrderedTypeEx.String_as_OT.cmp in Hac. now rewrite Hac.
Qed.

Lemma name_le_total a b : name_le a b \/ name_le b a.
Proof. apply String.leb_total. Qed.

Lemma insert_name_sorted x l :
  Sorted.StronglySorted name_le l -> Sorted.StronglySorted name_le (insert_name x l).
Proof.
  induction 1 as [|y l Hl IH Hy]; simpl.
  - repeat constructor.
  - destruct (String.leb x y) eqn:Hxy.
    + constructor; [now constructor|]. constructor; [exact Hxy|].
      revert Hy. apply Forall_impl. intros z Hz. now apply name_le_trans with y.
    + constructor; [exact IH|].
      assert (Hyx : name_le y x).
      { destruct (name_le_total x y) as [H'|H']; [|exact H'].
        unfold name_le in H'. congruence. }
      eapply Permutation_Forall;
        [symmetry; apply insert_name_perm|now constructor].
Qed.

Lemma sorted_sorted l : Sorted.StronglySorted name_le (sorted l).
Proof.
  induction l as [|x l IH]; simpl; [constructor|now apply insert_name_sorted].
Qed.

Lemma filter_sorted (p : string -> bool) l :
  Sorted.StronglySorted name_le l -> Sorted.StronglySorted name_le (filter p l).
Proof.
  induction 1 as [|y l Hl IH Hy]; simpl; [constructor|].
  destruct (p y); [|exact IH].
  constructor; [exact IH|]. apply Forall_forall. intros z Hz.
  apply filter_In in Hz. rewrite Forall_forall in Hy. now apply Hy.
Qed.

Section SaveFields.

Context {DB : Type} {conn : Connection DB}.

(** X5. The update that [save] sends names the attributes of the Record
    whose name does not start with two underscores, each of them, in
    ascending order of name, with one value for each. *)
Theorem save_update_fields table (instance : Pormo) n cursor (d d1 : DB) tr :
  getattr instance "id" = Some (VInt n) -> n <> 0%Z ->
  execute (probe table n) d = (Ok cursor, d1) ->
  fetchall cursor <> [] ->
  (forall f o, getattr instance f = Some (VObj o) -> exists v, getattr o "id" = Some v) ->
  exists fields vs evs,
    trace (snd (save table instance (mkTraced d tr))) =
    (tr ++ [Executed (probe table n); Executed (update_stmt table fields vs n)] ++ evs)%list /\
    Sorted.StronglySorted name_le fields /\
    (forall f, In f fields <->
               In f (map fst instance) /\ slice_first 2 f <> "__") /\
    List.length vs = List.length fields.
Proof.
  intros Hid Hn Hprobe Hrows Hnested.
  destruct (flat_all_fields instance (public_fields instance)) as (vs & Hflat & HF);
    [intros f Hf; now apply public_fields_In in Hf|assumption|].
  exists (public_fields instance), vs.
  assert (Htrace : exists evs,
    trace (snd (save table instance (mkTraced d tr))) =
    (tr ++ [Executed (probe table n);
            Executed (update_stmt table (public_fields instance) vs n)] ++ evs)%list).
  { pose proof (save_known_id table instance n cursor vs d d1 tr Hid Hn Hprobe
                  Hrows Hflat) as Hsave.
    cbv zeta in Hsave. rewrite Hsave.
    destruct (execute _ d1) as [[c|e|] d2]; simpl snd; simpl trace.
    - now exists [Committed].
    - now exists [].
    - now exists []. }
  destruct Htrace as [evs Htrace]. exists evs.
  split; [exact Htrace|]. split; [|split].
  - apply filter_sorted, sorted_sorted.
  - intros f. rewrite public_fields_In. unfold public.
    rewrite negb_true_iff, String.eqb_neq. reflexivity.
  - symmetry. eapply Forall2_length. eassumption.
Qed.

End SaveFields.

(** ** [orm]: columns that are not looked up *)

Section RawRecords.

Context {DB : Type} {conn : Connection DB}.

Variable q : string -> string -> M DB (list Pormo).




End RawRecords.



Section WithoutLookup.

Context {DB : Type} {conn : Connection DB}.




End WithoutLookup.

(** ** [orm]: the shape of what it returns *)

Lemma setattr_keys obj name v x :
  In x (map fst (setattr obj name v)) <-> x = name \/ In x (map fst obj).
Proof.
  induction obj as [|[k w] obj IH]; simpl.
  - intuition.
  - destruct (String.eqb_spec k name) as [->|Hk]; simpl.
    + intuition.
    + rewrite IH. intuition.
Qed.

Lemma setattr_NoDup obj name v :
  NoDup (map fst obj) -> NoDup (map fst (setattr obj name v)).
Proof.
  induction obj as [|[k w] obj IH]; simpl; intros Hnd.
  - repeat constructor. intros [].
  - inversion Hnd as [|k' ks Hk Hnd']; subst.
    destruct (String.eqb_spec k name) as [->|Hne]; simpl.
    + now constructor.
    + constructor; [|now apply IH].
      rewrite setattr_keys. intros [->|Hin]; [now apply Hne|now apply Hk].
Qed.

Section Shape.

Context {DB : Type} {conn : Connection DB}.

Variable q : string -> string -> M DB (list Pormo).

Lemma orm_col_Ok fkeylookup rownames row i obj (d : DB) obj1 d1 :
  orm_col q fkeylookup rownames row i obj d = (Ok obj1, d1) ->
  exists name v, nth_error rownames i = Some name /\ obj1 = setattr obj name v.
Proof.
  intros Hcol.
  destruct (nth_error rownames i) as [name|] eqn:Hname.
  2:{ unfold orm_col, index, bind in Hcol. rewrite Hname in Hcol. discriminate. }
  destruct (nth_error row i) as [val|] eqn:Hval.
  2:{ unfold orm_col, index, bind in Hcol. rewrite Hname, Hval in Hcol. discriminate. }
  rewrite (orm_col_resolve q fkeylookup rownames row i name val obj d Hname Hval) in Hcol.
  unfold bind in Hcol.
  destruct (resolve q fkeylookup name val d) as [[v| |] d2]; try discriminate.
  injection Hcol as <- <-. now exists name, v.
Qed.

Lemma columns_loop_keys fkeylookup rownames row :
  forall n a obj (d : DB) obj' d',
    for_each (seq a n) (orm_col q fkeylookup rownames row) obj d = (Ok obj', d') ->
    NoDup (map fst obj) ->
    NoDup (map fst obj') /\
    forall x, In x (map fst obj') <->
              In x (map fst obj) \/
              exists i, a <= i < a + n /\ nth_error rownames i = Some x.
Proof.
  induction n as [|n IH]; intros a obj d obj' d' H Hnd.
  - simpl in H. injection H as <- <-. split; [exact Hnd|].
    intros x. split; [now left|]. intros [?|(i & Hi & _)]; [assumption|lia].
  - simpl in H. unfold bind in H.
    destruct (orm_col q fkeylookup rownames row a obj d) as [[obj1| |] d1] eqn:Hcol;
      try discriminate.
    destruct (orm_col_Ok _ _ _ _ _ _ _ _ Hcol) as (name & v & Hname & ->).
    destruct (IH (S a) _ _ _ _ H (setattr_NoDup obj name v Hnd)) as [Hnd' Hkeys].
    split; [exact Hnd'|].
    intros x. rewrite Hkeys, setattr_keys. split.
    + intros [[->|Hin]|(i & Hi & Hx)].
      * right. exists a. split; [lia|assumption].
      * now left.
      * right. exists i. split; [lia|assumption].
    + intros [Hin|(i & Hi & Hx)].
      * left. now right.
      * destruct (Nat.eq_dec i a) as [->|Hne].
        -- left. left. congruence.
        -- right. exists i. split; [lia|assumption].
Qed.

Lemma rows_loop_shape fkeylookup rownames (P : Pormo -> Prop) :
  (forall row (d : DB) obj d',
      for_each (seq 0 (List.length rownames)) (orm_col q fkeylookup rownames row)
               new_Pormo d = (Ok obj, d') -> P obj) ->
  forall rows objs0 (d : DB) objs d',
    for_each rows (orm_row q fkeylookup rownames) objs0 d = (Ok objs, d') ->
    exists news, objs = (objs0 ++ news)%list /\
                 List.length news = List.length rows /\ Forall P news.
Proof.
  intros HP. induction rows as [|row rows IH]; intros objs0 d objs d' H.
  - simpl in H. injection H as <- <-. exists []. rewrite app_nil_r. auto.
  - simpl in H. unfold bind at 1 in H.
    destruct (orm_row q fkeylookup rownames row objs0 d) as [[objs1| |] d1] eqn:Hrow;
      try discriminate.
    unfold orm_row, bind in Hrow.
    destruct (for_each (seq 0 (List.length rownames)) _ new_Pormo d)
      as [[obj| |] d2] eqn:Hcols; try discriminate.
    injection Hrow as <- <-.
    destruct (IH _ _ _ _ H) as (news & -> & Hlen & Hall).
    exists (obj :: news). rewrite <- app_assoc. split; [reflexivity|].
    split; [simpl; congruence|]. constructor; [|exact Hall].
    eapply HP. eassumption.
Qed.

End Shape.

Section OrmShape.

Context {DB : Type} {conn : Connection DB}.

(** X9. Whenever [orm] returns, on any connection and with or without
    look-ups, it returns one Record for each fetched row, and the
    attributes of every Record are the column names of the cursor, each
    name once. *)
Theorem orm_shape fuel table cursor fkeylookup (d : DB) objs d' :
  orm fuel table cursor fkeylookup d = (Ok objs, d') ->
  List.length objs = List.length (fetchall cursor) /\
  Forall (fun obj =>
            NoDup (map fst obj) /\
            forall name, In name (map fst obj) <-> In name (description cursor))
         objs.
Proof.
  intros Horm. unfold orm, orm_with in Horm.
  set (P := fun obj : Pormo =>
              NoDup (map fst obj) /\
              forall name, In name (map fst obj) <-> In name (description cursor)).
  assert (HP : forall row (d0 : DB) obj d1,
             for_each (seq 0 (List.length (description cursor)))
                      (orm_col (fun t w => query fuel t w true) fkeylookup
                               (description cursor) row)
                      new_Pormo d0 = (Ok obj, d1) -> P obj).
  { intros row d0 obj d1 H.
    destruct (columns_loop_keys _ _ _ _ _ _ _ _ _ _ H (NoDup_nil _)) as [Hnd Hkeys].
    split; [exact Hnd|]. intros name. rewrite Hkeys. split.
    - intros [[]|(i & _ & Hi)]. eapply nth_error_In. eassumption.
    - intros Hin. right. destruct (In_nth_error _ _ Hin) as [i Hi].
      exists i. split; [|exact Hi]. split; [lia|].
      simpl. apply nth_error_Some. congruence. }
  destruct (rows_loop_shape _ fkeylookup (description cursor) P HP _ _ _ _ _ Horm)
    as (news & -> & Hlen & Hall).
  split; assumption.
Qed.

(** X10. In a column that follows the foreign key convention, a text,
    [None] or a Record raises TypeError at the integer conversion: the
    referenced table is not asked, and [orm] on a cursor holding such a row
    never returns a list. *)
Theorem foreign_key_not_integer cursor row i name val :
  In row (fetchall cursor) ->
  nth_error (description cursor) i = Some name ->
  nth_error row i = Some val ->
  (exists s, val = VStr s) \/ val = VNone \/ (exists o, val = VObj o) ->
  is_fkey true name = true ->
  (forall (q : string -> string -> M DB (list Pormo)) obj d,
      orm_col q true (description cursor) row i obj d = (Raise TypeError, d)) /\
  (forall fuel table (d : DB) objs d',
      orm fuel table cursor true d <> (Ok objs, d')).
Proof.
  intros Hrow Hname Hval Hnot Hfk.
  assert (Hcol : forall (q : string -> string -> M DB (list Pormo)) obj d,
             orm_col q true (description cursor) row i obj d = (Raise TypeError, d)).
  { intros q obj d. rewrite (orm_col_resolve q true _ _ _ name val) by assumption.
    unfold bind, resolve, lift. rewrite Hfk.
    destruct Hnot as [[s ->]|[->|[o ->]]]; reflexivity. }
  split; [exact Hcol|].
  intros fuel table d objs d' Horm. unfold orm, orm_with in Horm.
  destruct (for_each_Ok_In _ _ _ _ _ _ _ _ Horm row Hrow) as (o1 & e1 & o2 & e2 & H).
  unfold orm_row, bind in H.
  destruct (for_each (seq 0 (List.length (description cursor))) _ new_Pormo e1)
    as [[obj| |] e3] eqn:Hcols; try discriminate.
  assert (Hi : In i (seq 0 (List.length (description cursor)))).
  { apply in_seq. split; [lia|]. simpl. apply nth_error_Some. congruence. }
  destruct (for_each_Ok_In _ _ _ _ _ _ _ _ Hcols i Hi) as (p1 & f1 & p2 & f2 & H').
  rewrite Hcol in H'. discriminate.
Qed.

End OrmShape.

(** ** [query]: what it sends *)

Section Always.

Context {DB : Type}.

Variable I : DB -> Prop.

Lemma always_ret A (a : A) : always I (ret a).
Proof. intros d Hd. exact Hd. Qed.

Lemma always_raise A e : always I (raise e : M DB A).
Proof. intros d Hd. exact Hd. Qed.

Lemma always_lift A (r : outcome A) : always I (lift r).
Proof. intros d Hd. exact Hd. Qed.

Lemma always_bind A B (c : M DB A) (k : A -> M DB B) :
  always I c -> (forall a, always I (k a)) -> always I (bind c k).
Proof.
  intros Hc Hk d Hd. unfold bind. specialize (Hc d Hd).
  destruct (c d) as [[a|e|] d1]; simpl in *; [now apply Hk|assumption|assumption].
Qed.

Lemma always_index A (l : list A) i : always I (index l i).
Proof. unfold index. destruct (nth_error l i); [apply always_ret|apply always_raise]. Qed.

Lemma always_for_each A S (l : list A) (body : A -> S -> M DB S) :
  (forall x s, always I (body x s)) -> forall s, always I (for_each l body s).
Proof.
  intros Hbody. induction l as [|x l IH]; intros s; simpl.
  - apply always_ret.
  - apply always_bind; [apply Hbody|apply IH].
Qed.

Lemma always_orm_with (q : string -> string -> M DB (list Pormo)) table cursor fkeylookup :
  (forall t w, always I (q t w)) -> always I (orm_with q table cursor fkeylookup).
Proof.
  intros Hq. unfold orm_with. apply always_for_each. intros row objs.
  unfold orm_row. apply always_bind; [|intros; apply always_ret].
  apply always_for_each. intros i obj. unfold orm_col.
  apply always_bind; [apply always_index|]. intros name.
  apply always_bind; [apply always_index|]. intros val.
  destruct (is_fkey fkeylookup name); [|apply always_ret].
  apply always_bind; [apply always_lift|]. intros w.
  apply always_bind; [apply Hq|]. intros [|o r]; apply always_ret.
Qed.

End Always.

Lemma query_unfold {DB : Type} {conn : Connection DB} fuel table where_ fkeylookup :
  query (S fuel) table where_ fkeylookup =
  (cursor <- execute (select_stmt table
     (if negb (String.length where_ =? 0)%nat then "where " ++ where_ else where_)) ;;
   orm_with (fun t w => query fuel t w true) table cursor fkeylookup).
Proof. reflexivity. Qed.

Section OnlySelects.

Context {DB : Type} {conn : Connection DB}.

Lemma always_select tr t w :
  always (extends (DB := DB) is_select tr) (execute (select_stmt t w)).
Proof.
  intros [d tr0] (evs & Htr & Hall). simpl in Htr. subst tr0.
  rewrite traced_execute. cbn [snd].
  exists (evs ++ [Executed (select_stmt t w)])%list. split.
  - cbn [trace]. now rewrite app_assoc.
  - apply Forall_app. split; [exact Hall|]. constructor; [|constructor].
    now exists (t ++ " " ++ w).
Qed.

Lemma always_query tr fuel : forall table where_ fkeylookup,
  always (extends (DB := DB) is_select tr) (query fuel table where_ fkeylookup).
Proof.
  induction fuel as [|fuel IH]; intros table where_ fkeylookup.
  - intros d Hd. exact Hd.
  - rewrite query_unfold.
    apply always_bind; [apply always_select|]. intros cursor.
    apply always_orm_with. intros t w. apply IH.
Qed.

(** X11. Whatever the table, the filter, the depth and the outcome,
    everything [query] sends to the connection, its own statement and those
    of the nested look-ups, is a statement that starts with
    [select * from ]; it never commits. *)
Theorem query_sends_only_selects fuel table where_ fkeylookup (d : DB) tr :
  exists evs,
    trace (snd (query fuel table where_ fkeylookup (mkTraced d tr))) = (tr ++ evs)%list /\
    Forall is_select evs.
Proof.
  apply (always_query tr fuel table where_ fkeylookup (mkTraced d tr)).
  exists []. split; [now rewrite app_nil_r|constructor].
Qed.

End OnlySelects.

(** ** [query] on MiniSQL *)

Section QueryRows.
Import MiniSQL MiniSQLFacts MiniSQLStatements.

Variable d : db.




(** X13. With look-ups enabled, whenever [query(db, t, 'id = n')] returns
    on a table with distinct column names, it returns one Record for each
    row with identifier [n], every one of them with [id] equal to [n], and
    the database is left as it was. *)
Theorem query_by_identifier fuel t tb j n objs d' :
  lacks " " t = true ->
  find_table d t = Some tb ->
  column_index (columns tb) "id" = Some j ->
  NoDup (map fst (columns tb)) ->
  query fuel t ("id = " ++ decimal n) true d = (Ok objs, d') ->
  d' = d /\
  List.length objs = List.length (filter (id_is j n) (rows tb)) /\
  Forall (fun obj => getattr obj "id" = Some (VInt n)) objs.
Proof.
  intros Ht Hfind Hid Hnodup Hq. destruct fuel as [|fuel]; [discriminate|].
  destruct (query_by_id d fuel t tb j n true objs d' Ht Hfind Hid Hnodup Hq)
    as (Hd & Hlen & _).
  split; [exact Hd|]. split; [exact Hlen|].
  apply Forall_forall. intros obj Hin.
  exact (query_by_id_id d fuel t tb j n true objs d' obj Ht Hfind Hid Hnodup Hq Hin).
Qed.

End QueryRows.

(** ** [save] on MiniSQL: what the update writes *)




Module MiniSQLUpdates.
Import MiniSQL MiniSQLFacts MiniSQLStatements.








End MiniSQLUpdates.

Section SaveWrites.
Import MiniSQL MiniSQLFacts MiniSQLStatements MiniSQLUpdates.

Variable d : db.



End SaveWrites.

(** ** [orm] on MiniSQL: references that are found *)

Section Resolved.
Import MiniSQL MiniSQLFacts MiniSQLStatements.

Variable d : db.

Lemma resolve_found fuel ref k v d2 :
  ref <> "" ->
  references d ref k ->
  resolve (fun t w => query fuel t w true) true (ref ++ "_id") (VInt k) d = (Ok v, d2) ->
  exists o, v = VObj o /\ getattr o "id" = Some (VInt k).
Proof.
  intros Href (Hblank & tb & j & Hfind & Hnodup & Hid & row & Hrow & Hrowid) Hres.
  unfold resolve in Hres. rewrite (is_fkey_ref_id ref Href), is_fkey_ref in Hres.
  unfold bind, lift in Hres. cbn [fmt_i] in Hres.
  destruct (query fuel ref ("id = " ++ decimal k) true d) as [[objs| |] d3] eqn:Hq;
    try discriminate.
  destruct fuel as [|fuel]; [discriminate|].
  injection Hres as <- _.
  destruct objs as [|o objs].
  - destruct (query_by_id d fuel _ tb j k true [] d3 Hblank Hfind Hid Hnodup Hq)
      as (_ & Hlen & _).
    assert (Hin : In row (filter (id_is j k) (rows tb))) by (apply filter_In; auto).
    destruct (filter (id_is j k) (rows tb)); [contradiction|discriminate].
  - exists o. split; [reflexivity|].
    apply (query_by_id_id d fuel _ tb j k true (o :: objs) d3 o
             Hblank Hfind Hid Hnodup Hq).
    now left.
Qed.

(** X15. A column [<ref>_id] whose value [k] is the identifier of a row of
    the table [<ref>]: whenever [orm] returns, the Record of the row
    carries for that column a Record, and the [id] of that Record is
    [k]. *)
Theorem reference_is_resolved fuel table cursor r row c ref k objs d' :
  NoDup (description cursor) ->
  nth_error (fetchall cursor) r = Some row ->
  nth_error (description cursor) c = Some (ref ++ "_id") ->
  ref <> "" ->
  nth_error row c = Some (VInt k) ->
  references d ref k ->
  orm fuel table cursor true d = (Ok objs, d') ->
  exists obj o,
    nth_error objs r = Some obj /\
    getattr obj (ref ++ "_id") = Some (VObj o) /\
    getattr o "id" = Some (VInt k).
Proof.
  intros Hnodup Hrow Hname Href Hval Hrefs Horm. unfold orm, orm_with in Horm.
  assert (Hq : forall t w, keeps (fun d0 => d0 = d) (query fuel t w true)).
  { intros t w. apply query_keeps_db. }
  destruct (rows_loop (fun d0 => d0 = d) _ true (description cursor) Hq
              _ _ _ _ _ eq_refl Horm) as (news & -> & _ & Hrows).
  destruct (Hrows r row Hrow) as (obj & d1 & d2 & Hobj & -> & Hcols).
  destruct (columns_loop (fun d0 => d0 = d) _ true (description cursor) row Hq Hnodup
              _ _ _ _ _ _ eq_refl Hcols) as [Hin _].
  destruct (Hin c (ref ++ "_id")) as (val & v & e1 & e2 & Hval' & -> & Hres & Hget).
  { split; [lia|]. simpl. apply nth_error_Some. congruence. }
  { assumption. }
  assert (val = VInt k) by congruence. subst val.
  destruct (resolve_found fuel ref k v e2 Href Hrefs Hres) as (o & -> & Ho).
  exists obj, o. auto.
Qed.

End Resolved.

(** ** The further properties on the scenario *)

Lemma save_without_id_witness :
  save "people" nameless (mkTraced company []) =
  (Raise AttributeError, mkTraced company []).
Proof. apply (save_without_id "people" nameless company []). reflexivity. Defined.

Lemma save_id_not_a_number_witness :
  save "people" mislabeled (mkTraced company []) =
  (Raise TypeError, mkTraced company []).
Proof.
  apply (save_id_not_a_number "people" mislabeled (VStr "five") company []).
  - reflexivity.
  - discriminate.
Defined.


Lemma save_propagates_errors_witness :
  (forall e d1,
      execute (probe "nowhere" 7) company = (Raise e, d1) ->
      save "nowhere" carol (mkTraced company []) =
      (Raise e, mkTraced d1 ([] ++ [Executed (probe "nowhere" 7)])%list)) /\
  (forall cursor d1,
      execute (probe "nowhere" 7) company = (Ok cursor, d1) ->
      fetchall cursor <> [] ->
      (forall f o, getattr carol f = Some (VObj o) ->
                   exists v, getattr o "id" = Some v) ->
      exists vs,
        Forall2 (flattened carol) (public_fields carol) vs /\
        forall e d2,
          execute (update_stmt "nowhere" (public_fields carol) vs 7) d1 = (Raise e, d2) ->
          save "nowhere" carol (mkTraced company []) =
          (Raise e,
           mkTraced d2
             ([] ++ [Executed (probe "nowhere" 7);
                     Executed (update_stmt "nowhere" (public_fields carol) vs 7)])%list)).
Proof.
  apply (save_propagates_errors "nowhere" carol 7 company []).
  - reflexivity.
  - lia.
Defined.

Example save_nowhere :
  save "nowhere" carol (mkTraced company []) =
  (Raise (DatabaseError "no such table"),
   mkTraced company [Executed "select * from nowhere where id = 7"]).
Proof. vm_compute. reflexivity. Qed.

Lemma ann_nested_ids f o :
  getattr ann f = Some (VObj o) -> exists v, getattr o "id" = Some v.
Proof.
  unfold ann, getattr.
  destruct (String.eqb_spec "id" f); [intros [=]|].
  destruct (String.eqb_spec "name" f); [intros [=]|].
  destruct (String.eqb_spec "department_id" f); [|intros [=]].
  intros [= <-]. now exists (VInt 1).
Qed.

Lemma save_update_fields_witness :
  exists fields vs evs,
    trace (snd (save "people" ann (mkTraced company []))) =
    ([] ++ [Executed (probe "people" 5); Executed (update_stmt "people" fields vs 5)]
        ++ evs)%list /\
    Sorted.StronglySorted name_le fields /\
    (forall f, In f fields <-> In f (map fst ann) /\ slice_first 2 f <> "__") /\
    List.length vs = List.length fields.
Proof.
  apply (save_update_fields "people" ann 5 people_cursor company company []).
  - reflexivity.
  - lia.
  - vm_compute. reflexivity.
  - discriminate.
  - exact ann_nested_ids.
Defined.




Lemma orm_shape_witness :
  List.length [ann] = List.length (fetchall people_cursor) /\
  Forall (fun obj =>
            NoDup (map fst obj) /\
            forall name, In name (map fst obj) <-> In name (description people_cursor))
         [ann].
Proof.
  apply (orm_shape 1 "people" people_cursor true company [ann] company).
  reflexivity.
Defined.

Lemma foreign_key_not_integer_witness :
  (forall (q : string -> string -> M MiniSQL.db (list Pormo)) obj d,
      orm_col q true (description text_key_cursor) [VInt 5; VStr "Eng"] 1 obj d
      = (Raise TypeError, d)) /\
  (forall fuel table (d : MiniSQL.db) objs d',
      orm fuel table text_key_cursor true d <> (Ok objs, d')).
Proof.
  apply (foreign_key_not_integer text_key_cursor [VInt 5; VStr "Eng"] 1
           "department_id" (VStr "Eng")).
  - simpl. now left.
  - reflexivity.
  - reflexivity.
  - left. now exists "Eng".
  - reflexivity.
Defined.


Lemma query_by_identifier_witness :
  company = company /\
  List.length [ann] =
  List.length (filter (MiniSQL.id_is 0 5) (MiniSQL.rows people)) /\
  Forall (fun obj => getattr obj "id" = Some (VInt 5)) [ann].
Proof.
  apply (query_by_identifier company 2 "people" people 0 5 [ann] company).
  - reflexivity.
  - reflexivity.
  - reflexivity.
  - simpl. repeat constructor; simpl; intuition discriminate.
  - reflexivity.
Defined.


Example save_ann_renamed :
  people_rows (snd (save "people" ann_renamed company))
  = Some [[VInt 5; VStr "Anna"; VInt 1]].
Proof. vm_compute. reflexivity. Qed.

Lemma reference_is_resolved_witness :
  exists obj o,
    nth_error [ann] 0 = Some obj /\
    getattr obj ("department" ++ "_id") = Some (VObj o) /\
    getattr o "id" = Some (VInt 1).
Proof.
  apply (reference_is_resolved company 1 "people" people_cursor 0
           [VInt 5; VStr "Ann"; VInt 1] 2 "department" 1 [ann] company).
  - simpl. repeat constructor; simpl; intuition discriminate.
  - reflexivity.
  - reflexivity.
  - discriminate.
  - reflexivity.
  - split; [reflexivity|]. exists department, 0.
    repeat split; try reflexivity.
    + simpl. repeat constructor; simpl; intuition discriminate.
    + exists [VInt 1; VStr "Eng"]. split; [now left|reflexivity].
  - reflexivity.
Defined.

(** ** [save], then [query] *)

Section SaveThenQuery.
Import MiniSQL MiniSQLFacts MiniSQLStatements MiniSQLUpdates.



End SaveThenQuery.


Example save_then_query_ann :
  (objs <- (save "people" ann_renamed ;;; query 2 "people" "id = 5" true) ;; ret objs)
    company =
  (Ok [[("id", VInt 5); ("name", VStr "Anna");
        ("department_id", VObj [("id", VInt 1); ("name", VStr "Eng")])]],
   [MiniSQL.mkTable "people" (MiniSQL.columns people) [[VInt 5; VStr "Anna"; VInt 1]];
    department]).
Proof. vm_compute. reflexivity. Qed.
